(** * A Markdown renderer for Blackfriday syntax trees

    Shallow embedding of [main.go] (package [bfmdrenderer]): the [Renderer]
    structure, [skipParagraphTags] and [RenderNode], together with the part
    of the Blackfriday v2 interface the renderer is written against (node
    kinds, list flags, the depth-first [Walk]).

    Conventions.
    - A Go [[]byte] is a [list byte]; a Go [int] is a [Z] wrapped to 64 bits.
    - The renderer mutates its receiver, appends to an [io.Writer] and
      prints to the standard logger.  These three effects are the fields of
      [World]; code runs in the monad [M], whose result [None] stands for a
      run-time panic (nil dereference, index or slice bound out of range).
      The world reached when the panic is raised is kept. *)

From Stdlib Require Import String Ascii DecimalString.
From Stdlib.Strings Require Import Byte.
From Stdlib Require Import ZArith List Bool Lia.
Import ListNotations.
Local Open Scope Z_scope.

(** ** Bytes and machine integers *)

(** [[]byte("...")] *)
Definition bytes (s : string) : list byte := list_byte_of_string s.

(** The byte of the Go escape ['\n']. *)
Definition newline : list byte := [x0a].

(** [len(s)], as a Go [int]. *)
Definition len {A : Type} (s : list A) : Z := Z.of_nat (length s).

Definition minInt : Z := - 2 ^ 63.
Definition maxInt : Z := 2 ^ 63 - 1.

(** Two's complement wrap-around of [int] arithmetic (64-bit platforms). *)
Definition wrapInt (z : Z) : Z := (z + 2 ^ 63) mod 2 ^ 64 - 2 ^ 63.

Definition inInt (z : Z) : Prop := minInt <= z <= maxInt.

(** [strconv.Itoa]: decimal digits, with a leading minus sign below zero. *)
Definition Itoa (i : Z) : list byte :=
  bytes (NilZero.string_of_int (Z.to_int i)).

(** ** Blackfriday's syntax tree, as the renderer reads it *)

(** [bf.NodeType].  It is an [int] in Go, so a node can carry a value that is
    none of the 24 declared constants: [OtherType k] stands for the [k]-th
    such value.  These are the values that reach the [default] case. *)
Inductive NodeType : Type :=
| Document | BlockQuote | List | Item | Paragraph | Heading | HorizontalRule
| Emph | Strong | Del | Link | Image | Text | HTMLBlock | CodeBlock
| Softbreak | Hardbreak | Code | HTMLSpan
| Table | TableCell | TableHead | TableBody | TableRow
| OtherType (k : nat).

Definition NodeType_eq_dec (a b : NodeType) : {a = b} + {a <> b}.
Proof. decide equality. apply Nat.eq_dec. Defined.

(** [bf.ListType] bit flags. *)
Definition ListTypeOrdered : Z := 1.
Definition ListTypeDefinition : Z := 2.
Definition ListTypeTerm : Z := 4.

Record ListData : Type := mkListData {
  ListFlags : Z;
  Tight : bool;
  BulletChar : byte;
  Delimiter : byte
}.

(** The fields of [bf.Node] other than the tree pointers.  [Level] is
    [HeadingData.Level], [Destination] is [LinkData.Destination] and [Info]
    is [CodeBlockData.Info]. *)
Record Payload : Type := mkPayload {
  Type_ : NodeType;
  Literal : list byte;
  Level : Z;
  listData : ListData;
  Destination : list byte;
  Info : list byte
}.

(** A [*bf.Node] seen from [RenderNode]: its own fields and the chain of
    [Parent] pointers, [None] being [nil]. *)
#[local] Unset Elimination Schemes.
Inductive Node : Type := mkNode {
  payload : Payload;
  Parent : option Node
}.
#[local] Set Elimination Schemes.

Definition typeOf (n : Node) : NodeType := Type_ (payload n).

(** A whole document: a payload and the children in sibling order. *)
#[local] Unset Elimination Schemes.
Inductive Tree : Type :=
| Tr (p : Payload) (children : list Tree).
#[local] Set Elimination Schemes.

Definition rootPayload (t : Tree) : Payload :=
  match t with Tr p _ => p end.

Definition childrenOf (t : Tree) : list Tree :=
  match t with Tr _ cs => cs end.

(** [bf.WalkStatus] *)
Inductive WalkStatus : Type := GoToNext | SkipChildren | Terminate.

(** ** The renderer and its effects *)

Record Renderer : Type := mkRenderer {
  paragraphDecoration : list byte;
  nestedListLevel : Z;
  nestedListDecoration : list byte;
  orderedListCounters : list Z
}.

(** [NewRenderer()] without options: the zero value of the structure. *)
Definition NewRenderer : Renderer := mkRenderer [] 0 [] [].

(** One line printed through package [log]. *)
Inductive LogLine : Type :=
| DefinitionListsNotImplemented  (* "Definition lists not implemented by Renderer" *)
| SoftBreaksNotImplemented       (* "Soft breaks not implemented by renderer" *)
| HTMLNotImplemented             (* "HTML elements not implemented by renderer" *)
| TablesNotImplemented           (* "Markdown tables not implemented by renderer" *)
| UnknownNodeType (t : NodeType) (* "Unknown BlackFriday Node type '%s'" *).

Record World : Type := mkWorld {
  rnd : Renderer;         (* the receiver [r] *)
  sink : list byte;       (* everything written to [w] so far *)
  logged : list LogLine   (* everything logged so far *)
}.

Definition M (A : Type) : Type := World -> World * option A.

Definition ret {A : Type} (a : A) : M A := fun w => (w, Some a).

Definition bind {A B : Type} (c : M A) (k : A -> M B) : M B :=
  fun w =>
    match c w with
    | (w', Some a) => k a w'
    | (w', None) => (w', None)
    end.

Definition panic {A : Type} : M A := fun w => (w, None).

Declare Scope go_scope.
Delimit Scope go_scope with go.
Notation "x <- c1 ;; c2" := (bind c1 (fun x => c2))
  (at level 61, c1 at next level, right associativity) : go_scope.
Notation "c1 ;; c2" := (bind c1 (fun _ => c2))
  (at level 61, right associativity) : go_scope.
Local Open Scope go_scope.

(** Reading and assigning the receiver's fields. *)
Definition load {A : Type} (field : Renderer -> A) : M A :=
  fun w => (w, Some (field (rnd w))).

Definition store (f : Renderer -> Renderer) : M unit :=
  fun w => (mkWorld (f (rnd w)) (sink w) (logged w), Some tt).

Definition set_paragraphDecoration (v : list byte) (r : Renderer) : Renderer :=
  mkRenderer v (nestedListLevel r) (nestedListDecoration r) (orderedListCounters r).

Definition set_nestedListLevel (v : Z) (r : Renderer) : Renderer :=
  mkRenderer (paragraphDecoration r) v (nestedListDecoration r) (orderedListCounters r).

Definition set_nestedListDecoration (v : list byte) (r : Renderer) : Renderer :=
  mkRenderer (paragraphDecoration r) (nestedListLevel r) v (orderedListCounters r).

Definition set_orderedListCounters (v : list Z) (r : Renderer) : Renderer :=
  mkRenderer (paragraphDecoration r) (nestedListLevel r) (nestedListDecoration r) v.

(** [w.Write(b)]; the result of [Write] is dropped by the renderer. *)
Definition Write (b : list byte) : M unit :=
  fun w => (mkWorld (rnd w) (sink w ++ b) (logged w), Some tt).

(** [log.Println] and [log.Printf] *)
Definition logLine (l : LogLine) : M unit :=
  fun w => (mkWorld (rnd w) (sink w) (logged w ++ [l]), Some tt).

(** [s[:n]]: panics unless [0 <= n <= cap(s)].  The renderer only slices at
    [len(s) - 2] and [len(s) - 1], which never exceed [len(s)], so the test
    against the length decides the same cases. *)
Definition sliceTo {A : Type} (s : list A) (n : Z) : M (list A) :=
  if (0 <=? n) && (n <=? len s) then ret (firstn (Z.to_nat n) s) else panic.

(** [s[i]]: panics unless [0 <= i < len(s)]. *)
Definition index {A : Type} (s : list A) (i : Z) : M A :=
  if (0 <=? i) && (i <? len s)
  then match nth_error s (Z.to_nat i) with Some a => ret a | None => panic end
  else panic.

(** The slice [s] after the assignment [s[i] = v]. *)
Fixpoint assign {A : Type} (s : list A) (i : nat) (v : A) : list A :=
  match s, i with
  | [], _ => []
  | _ :: s', O => v :: s'
  | a :: s', S i' => a :: assign s' i' v
  end.

(** Following a pointer that may be nil. *)
Definition deref (p : option Node) : M Node :=
  match p with Some n => ret n | None => panic end.

Definition isType (n : Node) (t : NodeType) : bool :=
  if NodeType_eq_dec (typeOf n) t then true else false.

(** ** [skipParagraphTags] *)

(** The first test is guarded against a nil parent; the access to
    [node.Parent.Parent] that follows is not. *)
Definition skipParagraphTags (node : Node) : M bool :=
  let parent := Parent node in
  if match parent with Some p => isType p BlockQuote | None => false end
  then ret true
  else
    p <- deref (Parent node) ;;
    let grandparent := Parent p in
    match grandparent with
    | None => ret false
    | Some g =>
        if negb (isType g List) then ret false
        else ret (isType g List && Tight (listData (payload g)))
    end.

(** ** [RenderNode]

    One [match] arm per [case] of the [switch].  The loop that writes the
    [#] signs of a heading is a single write of [Level] signs (none when
    [Level] is not positive).  The cases that only log leave the [switch]
    and reach the final [return bf.SkipChildren]. *)

Definition hasFlag (flags mask : Z) : bool := negb (Z.land flags mask =? 0).

Definition RenderNode (node : Node) (entering : bool) : M WalkStatus :=
  match typeOf node with
  | Document => ret GoToNext
  | BlockQuote =>
      (if entering then
         pd <- load paragraphDecoration ;;
         store (set_paragraphDecoration (pd ++ bytes "> "))
       else
         pd <- load paragraphDecoration ;;
         pd' <- sliceTo pd (len pd - 2) ;;
         store (set_paragraphDecoration pd')) ;;
      ret GoToNext
  | List =>
      (if entering then
         cs <- load orderedListCounters ;;
         store (set_orderedListCounters (cs ++ [0])) ;;
         lvl <- load nestedListLevel ;;
         store (set_nestedListLevel (wrapInt (lvl + 1))) ;;
         lvl <- load nestedListLevel ;;
         if 1 <? lvl then
           nld <- load nestedListDecoration ;;
           store (set_nestedListDecoration (nld ++ bytes "  "))
         else ret tt
       else
         lvl <- load nestedListLevel ;;
         (if 1 <? lvl then
            nld <- load nestedListDecoration ;;
            nld' <- sliceTo nld (len nld - 2) ;;
            store (set_nestedListDecoration nld')
          else Write newline) ;;
         lvl <- load nestedListLevel ;;
         store (set_nestedListLevel (wrapInt (lvl - 1))) ;;
         cs <- load orderedListCounters ;;
         cs' <- sliceTo cs (len cs - 1) ;;
         store (set_orderedListCounters cs')) ;;
      ret GoToNext
  | Item =>
      (if entering then
         nld <- load nestedListDecoration ;;
         Write nld ;;
         parent <- deref (Parent node) ;;
         if hasFlag (ListFlags (listData (payload parent))) ListTypeOrdered then
           cs <- load orderedListCounters ;;
           c <- index cs (len cs - 1) ;;
           store (set_orderedListCounters
                    (assign cs (Z.to_nat (len cs - 1)) (wrapInt (c + 1)))) ;;
           cs <- load orderedListCounters ;;
           c <- index cs (len cs - 1) ;;
           Write (Itoa c) ;;
           Write [Delimiter (listData (payload node))] ;;
           Write (bytes " ")
         else if hasFlag (ListFlags (listData (payload parent))) ListTypeTerm then
           logLine DefinitionListsNotImplemented
         else
           Write [BulletChar (listData (payload node))] ;;
           Write (bytes " ")
       else ret tt) ;;
      ret GoToNext
  | Paragraph =>
      (if entering then
         pd <- load paragraphDecoration ;;
         Write pd
       else
         Write newline ;;
         skip <- skipParagraphTags node ;;
         if negb skip then Write newline else ret tt) ;;
      ret GoToNext
  | Heading =>
      (if entering then
         Write (concat (repeat (bytes "#") (Z.to_nat (Level (payload node))))) ;;
         Write (bytes " ")
       else
         Write (newline ++ newline)) ;;
      ret GoToNext
  | HorizontalRule =>
      Write (bytes "---" ++ newline ++ newline) ;;
      ret GoToNext
  | Emph =>
      Write (bytes "*") ;;
      ret GoToNext
  | Strong =>
      Write (bytes "**") ;;
      ret GoToNext
  | Del =>
      Write (bytes "~~") ;;
      ret GoToNext
  | Link =>
      (if entering then
         Write (bytes "[")
       else
         Write (bytes "](") ;;
         Write (Destination (payload node)) ;;
         Write (bytes ")")) ;;
      ret GoToNext
  | Image =>
      (if entering then
         Write (bytes "![")
       else
         Write (bytes "](") ;;
         Write (Destination (payload node)) ;;
         Write (bytes ")")) ;;
      ret GoToNext
  | Code =>
      Write (bytes "`") ;;
      Write (Literal (payload node)) ;;
      Write (bytes "`") ;;
      ret GoToNext
  | Text =>
      Write (Literal (payload node)) ;;
      ret GoToNext
  | CodeBlock =>
      Write (bytes "```") ;;
      Write (Info (payload node)) ;;
      Write newline ;;
      Write (Literal (payload node)) ;;
      Write (bytes "```" ++ newline ++ newline) ;;
      ret GoToNext
  | Softbreak =>
      logLine SoftBreaksNotImplemented ;;
      ret SkipChildren
  | Hardbreak =>
      Write (bytes "  " ++ newline) ;;
      ret GoToNext
  | HTMLBlock | HTMLSpan =>
      logLine HTMLNotImplemented ;;
      ret SkipChildren
  | Table | TableCell | TableHead | TableBody | TableRow =>
      logLine TablesNotImplemented ;;
      ret SkipChildren
  | OtherType _ =>
      logLine (UnknownNodeType (typeOf node)) ;;
      ret SkipChildren
  end.

(** ** The traversal engine

    [RenderNode] is the visitor handed to Blackfriday's [Node.Walk], which is
    not part of this package.  The walk is depth first.  A node is visited
    with [entering = true]; when its kind is a container kind and the visitor
    answered [GoToNext], its children are walked in order and the node is
    visited again with [entering = false].  A node of any other kind, and a
    container for which the visitor answered [SkipChildren], is visited once.
    [Terminate] stops the whole walk.  The result is [false] when the walk
    was terminated by the visitor. *)

Definition isContainer (t : NodeType) : bool :=
  match t with
  | Document | BlockQuote | List | Item | Paragraph | Heading
  | Emph | Strong | Del | Link | Image
  | Table | TableHead | TableBody | TableRow | TableCell => true
  | _ => false
  end.

Definition isTerminate (s : WalkStatus) : bool :=
  match s with Terminate => true | _ => false end.

(** Visiting siblings one after the other, until one of the visits
    terminates the walk. *)
Definition inOrder (visit : Tree -> M bool) : list Tree -> M bool :=
  fix go (ts : list Tree) : M bool :=
    match ts with
    | [] => ret true
    | c :: ts' =>
        continue <- visit c ;;
        if continue then go ts' else ret false
    end.

Fixpoint walkNode (parent : option Node) (t : Tree) {struct t} : M bool :=
  match t with
  | Tr p children =>
      let node := mkNode p parent in
      status <- RenderNode node true ;;
      match status with
      | Terminate => ret false
      | SkipChildren => ret true
      | GoToNext =>
          if isContainer (Type_ p) then
            continue <- inOrder (walkNode (Some node)) children ;;
            if continue then
              status' <- RenderNode node false ;;
              ret (negb (isTerminate status'))
            else ret false
          else ret true
      end
  end.

(** The children of [parent], walked in sibling order. *)
Definition walkSiblings (parent : option Node) (ts : list Tree) : M bool :=
  inOrder (walkNode parent) ts.

(** [ast.Walk(func(n, entering) { return r.RenderNode(w, n, entering) })] on
    the root of a tree. *)
Definition Walk (ast : Tree) : M bool := walkNode None ast.

(** A run from a fresh renderer, an empty sink and an empty log. *)
Definition freshWorld : World := mkWorld NewRenderer [] [].

Definition Render (ast : Tree) : World * option bool := Walk ast freshWorld.

(** ** Vocabulary of the statements *)

Definition ordered (p : Node) : bool :=
  hasFlag (ListFlags (listData (payload p))) ListTypeOrdered.

Definition term (p : Node) : bool :=
  hasFlag (ListFlags (listData (payload p))) ListTypeTerm.

(** The renderer after the visit that enters a list. *)
Definition enterList (r : Renderer) : Renderer :=
  let lvl := wrapInt (nestedListLevel r + 1) in
  mkRenderer (paragraphDecoration r) lvl
    (if 1 <? lvl then nestedListDecoration r ++ bytes "  "
     else nestedListDecoration r)
    (orderedListCounters r ++ [0]).

Definition ofKind (t : NodeType) (p : Payload) : bool :=
  if NodeType_eq_dec (Type_ p) t then true else false.

Definition noItem (t : Tree) : Prop := Type_ (rootPayload t) <> Item.

(** List items occur only as children of lists. *)
Fixpoint wellFormed (t : Tree) : bool :=
  match t with
  | Tr p children =>
      forallb (fun c => implb (ofKind Item (rootPayload c)) (ofKind List p)) children
      && forallb wellFormed children
  end.

(** Two renderers that differ at most in the innermost counter. *)
Definition sameButTop (r r' : Renderer) : Prop :=
  paragraphDecoration r' = paragraphDecoration r /\
  nestedListLevel r' = nestedListLevel r /\
  nestedListDecoration r' = nestedListDecoration r /\
  removelast (orderedListCounters r') = removelast (orderedListCounters r) /\
  length (orderedListCounters r') = length (orderedListCounters r).

Definition balancedFrom (parent : Node) (t : Tree) : Prop :=
  forall w,
    inInt (nestedListLevel (rnd w)) ->
    (Type_ (rootPayload t) = Item -> orderedListCounters (rnd w) <> []) ->
    exists w',
      walkNode (Some parent) t w = (w', Some true) /\
      sameButTop (rnd w) (rnd w') /\
      (Type_ (rootPayload t) <> Item -> rnd w' = rnd w).

Definition preservedBy (parent : option Node) (t : Tree) : Prop :=
  forall w w' b,
    inInt (nestedListLevel (rnd w)) ->
    walkNode parent t w = (w', Some b) ->
    b = true /\ sameButTop (rnd w) (rnd w').

(** The two cases in which a paragraph is closed by a single newline: the
    parent [p] of the paragraph is a block quote, or the parent of [p] is a
    list marked tight. *)
Definition secondNewlineSuppressed (p : Node) : bool :=
  isType p BlockQuote
  || match Parent p with
     | Some g => isType g List && Tight (listData (payload g))
     | None => false
     end.

Definition leafKind (t : NodeType) : bool :=
  match t with
  | HorizontalRule | Code | Text | CodeBlock | Hardbreak => true
  | _ => false
  end.

Definition unsupported (t : NodeType) : bool :=
  match t with
  | Softbreak | HTMLBlock | HTMLSpan
  | Table | TableCell | TableHead | TableBody | TableRow
  | OtherType _ => true
  | _ => false
  end.

(** A computation is framed when it neither reads nor rewrites what has
    been written and logged before it started: run after some output, it
    does what it does from an empty sink and log, with its own output
    appended to the old one. *)
Definition extend {A : Type} (w : World) (res : World * option A)
  : World * option A :=
  (mkWorld (rnd (fst res)) (sink w ++ sink (fst res))
     (logged w ++ logged (fst res)),
   snd res).

Definition framed {A : Type} (c : M A) : Prop :=
  forall w, c w = extend w (c (mkWorld (rnd w) [] [])).

(** The bytes a computation writes when started with renderer [r]. *)
Definition emitted {A : Type} (c : M A) (r : Renderer) : list byte :=
  sink (fst (c (mkWorld r [] []))).

Fixpoint hasPrefix (pre s : list byte) : bool :=
  match pre, s with
  | [], _ => true
  | _ :: _, [] => false
  | a :: pre', b :: s' => Byte.eqb a b && hasPrefix pre' s'
  end.

(** The lines of an output, without their newlines. *)
Fixpoint linesOf (s : list byte) : list (list byte) :=
  match s with
  | [] => []
  | b :: s' =>
      if Byte.eqb b x0a then [] :: linesOf s'
      else match linesOf s' with
           | [] => [[b]]
           | l :: ls => (b :: l) :: ls
           end
  end.

Definition everyLinePrefixed (pre out : list byte) : bool :=
  forallb (hasPrefix pre) (linesOf out).

(** No list and no list item anywhere in the tree. *)
Fixpoint listFree (t : Tree) : bool :=
  match t with
  | Tr p children =>
      negb (ofKind List p) && negb (ofKind Item p) && forallb listFree children
  end.

(** An item of a flat list: nothing below it is a list or an item. *)
Definition flatItem (t : Tree) : bool :=
  ofKind Item (rootPayload t) && forallb listFree (childrenOf t).

Definition ownDelimiter (item : Payload) : byte := Delimiter (listData item).

(** The output of the items of a list that is not nested, numbered from
    [i]: for each item the number, the delimiter chosen by [delimiterOf],
    a space, and what the children of the item write.  [pd] is the quote
    prefix in force and [below] the counters of the enclosing lists. *)
Fixpoint numbered (delimiterOf : Payload -> byte) (listNode : Node)
    (pd : list byte) (below : list Z) (i : Z) (items : list Tree)
  : list byte :=
  match items with
  | [] => []
  | item :: rest =>
      Itoa i ++ [delimiterOf (rootPayload item)] ++ bytes " "
      ++ emitted
           (walkSiblings (Some (mkNode (rootPayload item) (Some listNode)))
              (childrenOf item))
           (mkRenderer pd 1 [] (below ++ [i]))
      ++ numbered delimiterOf listNode pd below (i + 1) rest
  end.

(** ** Sample trees and nodes *)

Definition noList : ListData := mkListData 0 false x00 x00.

Definition plain (t : NodeType) : Payload := mkPayload t [] 0 noList [] [].

Definition textP (s : list byte) : Payload := mkPayload Text s 0 noList [] [].

Definition headingP (level : Z) : Payload := mkPayload Heading [] level noList [] [].

Definition listP (d : ListData) : Payload := mkPayload List [] 0 d [] [].

Definition itemP (d : ListData) : Payload := mkPayload Item [] 0 d [] [].

Definition bullet (c : byte) : ListData := mkListData 0 false c "."%byte.

Definition paragraphOf (s : string) : Tree :=
  Tr (plain Paragraph) [Tr (textP (bytes s)) []].

Definition documentNode : Node := mkNode (plain Document) None.

Definition tightList : Node := mkNode (listP (mkListData 0 true x00 x00)) None.

Definition itemIn (l : Node) : Node := mkNode (itemP (bullet "-"%byte)) (Some l).

Definition paragraphIn (p : Node) : Node := mkNode (plain Paragraph) (Some p).

Definition insideOneList : World := mkWorld (mkRenderer [] 1 [] [0]) [] [].

(** Heading "Hi" of level 2, paragraph "a", and a tight unordered list of the
    items "x" and "y", each item holding one paragraph, as the Blackfriday
    parser builds it. *)
Definition exampleDocument : Tree :=
  Tr (plain Document)
    [ Tr (headingP 2) [Tr (textP (bytes "Hi")) []];
      paragraphOf "a";
      Tr (listP (mkListData 0 true x00 x00))
        [ Tr (itemP (bullet "-"%byte)) [paragraphOf "x"];
          Tr (itemP (bullet "-"%byte)) [paragraphOf "y"] ] ].

(** The bytes the specification gives for the example document. *)
Definition claimedExampleOutput : list byte :=
  bytes "## Hi" ++ newline ++ newline ++ bytes "a" ++ newline ++ newline
  ++ bytes "- x" ++ newline ++ bytes "- y" ++ newline.

(** The same document with the text placed directly in the items, and with
    the list not marked tight. *)
Definition exampleDocumentBareItems : Tree :=
  Tr (plain Document)
    [ Tr (headingP 2) [Tr (textP (bytes "Hi")) []];
      paragraphOf "a";
      Tr (listP (mkListData 0 true x00 x00))
        [ Tr (itemP (bullet "-"%byte)) [Tr (textP (bytes "x")) []];
          Tr (itemP (bullet "-"%byte)) [Tr (textP (bytes "y")) []] ] ].

Definition exampleDocumentLoose : Tree :=
  Tr (plain Document)
    [ Tr (headingP 2) [Tr (textP (bytes "Hi")) []];
      paragraphOf "a";
      Tr (listP (mkListData 0 false x00 x00))
        [ Tr (itemP (bullet "-"%byte)) [paragraphOf "x"];
          Tr (itemP (bullet "-"%byte)) [paragraphOf "y"] ] ].

Definition termList : Node :=
  mkNode (listP (mkListData ListTypeTerm false x00 x00)) None.

Definition termAndOrderedList : Node :=
  mkNode (listP (mkListData (Z.lor ListTypeTerm ListTypeOrdered) false x00 x00))
         None.

Definition tableDocument : list Tree :=
  [ paragraphOf "before";
    Tr (plain Table) [Tr (plain TableRow) [Tr (textP (bytes "cell")) []]];
    paragraphOf "after" ].

(** A quoted paragraph whose text runs over two lines, and one whose two
    lines are separated by a hard break. *)
Definition quotedTwoLines : Tree :=
  Tr (plain Document)
    [ Tr (plain BlockQuote)
        [ Tr (plain Paragraph)
            [ Tr (textP (bytes "a" ++ newline ++ bytes "b")) [] ] ] ].

Definition quotedHardbreak : Tree :=
  Tr (plain Document)
    [ Tr (plain BlockQuote)
        [ Tr (plain Paragraph)
            [ Tr (textP (bytes "a")) []; Tr (plain Hardbreak) [];
              Tr (textP (bytes "b")) [] ] ] ].

(** An ordered list as the Blackfriday parser builds it: the delimiter is
    recorded on the items, not on the list node. *)
Definition orderedItem (s : string) : Tree :=
  Tr (itemP (mkListData ListTypeOrdered false x00 "."%byte)) [paragraphOf s].

Definition orderedListP : Payload :=
  listP (mkListData ListTypeOrdered true x00 x00).

Definition orderedExample : Tree :=
  Tr orderedListP [orderedItem "x"; orderedItem "y"].

(** ** Further vocabulary *)

(** The condition under which a visit returns instead of panicking: the
    slices cut on leaving a block quote or a list are long enough, the
    counter incremented for an ordered item exists, and the parent followed
    by an item or by a paragraph on exit is not nil. *)
Definition canVisit (node : Node) (entering : bool) (r : Renderer) : bool :=
  match typeOf node, entering with
  | BlockQuote, false => 2 <=? len (paragraphDecoration r)
  | List, false =>
      (if 1 <? nestedListLevel r then 2 <=? len (nestedListDecoration r)
       else true)
      && (1 <=? len (orderedListCounters r))
  | Item, true =>
      match Parent node with
      | None => false
      | Some p => if ordered p then 1 <=? len (orderedListCounters r) else true
      end
  | Paragraph, false =>
      match Parent node with None => false | Some _ => true end
  | _, _ => true
  end.

(** The lines one visit logs. *)
Definition diagnostics (node : Node) (entering : bool) : list LogLine :=
  match typeOf node with
  | Softbreak => [SoftBreaksNotImplemented]
  | HTMLBlock | HTMLSpan => [HTMLNotImplemented]
  | Table | TableCell | TableHead | TableBody | TableRow =>
      [TablesNotImplemented]
  | OtherType k => [UnknownNodeType (OtherType k)]
  | Item =>
      match entering, Parent node with
      | true, Some p =>
          if negb (ordered p) && term p then [DefinitionListsNotImplemented]
          else []
      | _, _ => []
      end
  | _ => []
  end.

(** A subtree on which no visit logs: no node of an unsupported kind, and
    no item under a list flagged term and not ordered. *)
Fixpoint silent (parent : option Node) (t : Tree) : bool :=
  match t with
  | Tr p children =>
      let node := mkNode p parent in
      match diagnostics node true with [] => true | _ => false end
      && forallb (silent (Some node)) children
  end.

(** The quote prefix at quote depth [q] and the indentation at list nesting
    level [lvl]. *)
Definition quotePrefix (q : nat) : list byte := concat (repeat (bytes "> ") q).

Definition indentation (lvl : Z) : list byte :=
  concat (repeat (bytes "  ") (Z.to_nat (lvl - 1))).

(** The renderers a walk can reach from a fresh one: the prefix is a run of
    "> ", the indentation is two spaces per list level above the first, and
    there is one counter per open list. *)
Definition shaped (r : Renderer) : Prop :=
  (exists q, paragraphDecoration r = quotePrefix q) /\
  nestedListDecoration r = indentation (nestedListLevel r) /\
  len (orderedListCounters r) = nestedListLevel r.

(** What entering an item writes after the indentation: number, delimiter
    and space under an ordered list; nothing under a list flagged term; the
    bullet and a space otherwise.  [c] is the counter after the visit. *)
Definition itemMarker (listNode : Node) (c : Z) (item : Payload) : list byte :=
  if ordered listNode then
    Itoa c ++ [Delimiter (listData item)] ++ bytes " "
  else if term listNode then []
  else [BulletChar (listData item)] ++ bytes " ".

Definition nextCounter (listNode : Node) (c : Z) : Z :=
  if ordered listNode then c + 1 else c.

(** An item whose subtree keeps list items under lists. *)
Definition properItem (t : Tree) : bool :=
  ofKind Item (rootPayload t) && wellFormed t.

(** The output of the items of a list, the innermost counter standing at
    [c] before the first of them.  Inside the list the renderer holds the
    prefix [pd], the level [lvl], the indentation [indent] and the counters
    [below] of the enclosing lists. *)
Fixpoint itemsOutput (listNode : Node) (pd : list byte) (lvl : Z)
    (indent : list byte) (below : list Z) (c : Z) (items : list Tree)
  : list byte :=
  match items with
  | [] => []
  | item :: rest =>
      let c' := nextCounter listNode c in
      indent ++ itemMarker listNode c' (rootPayload item)
      ++ emitted
           (walkSiblings (Some (mkNode (rootPayload item) (Some listNode)))
              (childrenOf item))
           (mkRenderer pd lvl indent (below ++ [c']))
      ++ itemsOutput listNode pd lvl indent below c' rest
  end.

(** A subtree whose rendering depends on nothing around it: it holds no
    block quote, list, item or paragraph. *)
Fixpoint contextFree (t : Tree) : bool :=
  match t with
  | Tr p children =>
      negb (ofKind BlockQuote p) && negb (ofKind List p)
      && negb (ofKind Item p) && negb (ofKind Paragraph p)
      && forallb contextFree children
  end.

(** An ordered list whose first item holds a nested bullet list. *)
Definition nestedExample : Tree :=
  Tr orderedListP
    [ Tr (itemP (mkListData ListTypeOrdered false x00 "."%byte))
        [ paragraphOf "a";
          Tr (listP (mkListData 0 true x00 x00))
            [ Tr (itemP (bullet "-"%byte)) [paragraphOf "b"] ] ];
      orderedItem "c" ].

(** The marker written on both sides of emphasized, strong and deleted
    text, and the opening of links and images. *)
Definition emphasisMark (t : NodeType) : option (list byte) :=
  match t with
  | Emph => Some (bytes "*")
  | Strong => Some (bytes "**")
  | Del => Some (bytes "~~")
  | _ => None
  end.

Definition linkOpening (t : NodeType) : option (list byte) :=
  match t with
  | Link => Some (bytes "[")
  | Image => Some (bytes "![")
  | _ => None
  end.

(** [k] block quotes around a tree. *)
Fixpoint quoted (k : nat) (t : Tree) : Tree :=
  match k with
  | O => t
  | S k' => Tr (plain BlockQuote) [quoted k' t]
  end.

Definition emphasizedLink : Tree :=
  Tr (plain Emph)
    [ Tr (mkPayload Link [] 0 noList (bytes "u") [])
        [ Tr (textP (bytes "t")) [] ] ].

(** ** The rest of the package and its caller *)







(** A definition list as the Blackfriday parser builds it: the list node
    carries [ListTypeDefinition] and the bookkeeping bit
    [ListItemBeginningOfList]; [ListTypeTerm] is set on the term items and
    never on the list node. *)
Definition ListItemBeginningOfList : Z := 16.

Definition definitionListP : Payload :=
  listP (mkListData (Z.lor ListTypeDefinition ListItemBeginningOfList)
           true x00 x00).

Definition definitionTermP : Payload :=
  itemP (mkListData
           (Z.lor (Z.lor ListTypeDefinition ListItemBeginningOfList)
                  ListTypeTerm)
           false "*"%byte "."%byte).

Definition definitionList : Node := mkNode definitionListP (Some documentNode).

Definition definitionDocument : Tree :=
  Tr (plain Document) [Tr definitionListP [Tr definitionTermP [paragraphOf "x"]]].

(** A list item that hangs under another item, outside any list of its
    own. *)
Definition strayItem : Tree :=
  Tr (itemP (mkListData ListTypeOrdered false x00 "."%byte))
    [ Tr (itemP (bullet "-"%byte)) [paragraphOf "x"] ].

(** * Lemmas *)

(** ** Induction on trees, integers and slices *)

Lemma Tree_ind (P : Tree -> Prop) :
  (forall p children, Forall P children -> P (Tr p children)) ->
  forall t, P t.
Proof.
  intros step. fix IH 1. intros [p children]. apply step.
  induction children as [|c cs IHcs]; constructor; [apply IH | exact IHcs].
Qed.

Lemma wrapInt_small z : inInt z -> wrapInt z = z.
Proof.
  unfold inInt, minInt, maxInt, wrapInt. intros H.
  rewrite Z.mod_small; lia.
Qed.

Lemma wrapInt_inInt z : inInt (wrapInt z).
Proof.
  unfold inInt, minInt, maxInt, wrapInt.
  pose proof (Z.mod_pos_bound (z + 2 ^ 63) (2 ^ 64) ltac:(lia)). lia.
Qed.

Lemma wrapInt_up_down z : inInt z -> wrapInt (wrapInt (z + 1) - 1) = z.
Proof.
  unfold inInt, minInt, maxInt, wrapInt. intros H.
  Z.div_mod_to_equations. lia.
Qed.

Lemma firstn_len_app {A : Type} (s t : list A) :
  firstn (Z.to_nat (len (s ++ t) - len t)) (s ++ t) = s.
Proof.
  unfold len. rewrite length_app.
  replace (Z.to_nat _) with (length s + 0)%nat by lia.
  rewrite firstn_app_2. cbn. apply app_nil_r.
Qed.

Lemma sliceTo_drop {A : Type} (s t : list A) w :
  sliceTo (s ++ t) (len (s ++ t) - len t) w = (w, Some s).
Proof.
  unfold sliceTo.
  replace ((0 <=? _) && _) with true.
  - rewrite firstn_len_app. reflexivity.
  - symmetry. apply andb_true_iff. unfold len. rewrite length_app.
    split; apply Z.leb_le; lia.
Qed.

Lemma index_last {A : Type} (s : list A) (a : A) w :
  index (s ++ [a]) (len (s ++ [a]) - 1) w = (w, Some a).
Proof.
  unfold index, len. rewrite length_app. cbn [length].
  replace ((0 <=? _) && _) with true
    by (symmetry; apply andb_true_iff; split; [apply Z.leb_le | apply Z.ltb_lt]; lia).
  replace (Z.to_nat _) with (length s) by lia.
  rewrite nth_error_app2, Nat.sub_diag by lia. reflexivity.
Qed.

Lemma assign_last {A : Type} (s : list A) (a v : A) :
  assign (s ++ [a]) (Z.to_nat (len (s ++ [a]) - 1)) v = s ++ [v].
Proof.
  unfold len. rewrite length_app. cbn [length].
  replace (Z.to_nat _) with (length s) by lia.
  induction s as [|x s IH]; cbn; [reflexivity | now rewrite IH].
Qed.

Lemma length_assign {A : Type} (s : list A) i v :
  length (assign s i v) = length s.
Proof.
  revert i. induction s as [|a s IH]; intros [|i]; cbn; auto.
Qed.

Lemma firstn_all_but {A : Type} (s : list A) (k : nat) :
  (k <= length s)%nat ->
  exists t, length t = k /\ s = firstn (length s - k) s ++ t.
Proof.
  intros H. exists (skipn (length s - k) s). split.
  - rewrite length_skipn. lia.
  - symmetry. apply firstn_skipn.
Qed.

Lemma split_last_two {A : Type} (s : list A) :
  0 <= len s - 2 ->
  exists a b, s = firstn (Z.to_nat (len s - 2)) s ++ [a; b].
Proof.
  unfold len. intros H.
  destruct (firstn_all_but s 2 ltac:(lia)) as (t & Ht & E).
  destruct t as [|a [|b [|? ?]]]; try discriminate.
  exists a, b. replace (Z.to_nat _) with (length s - 2)%nat by lia. exact E.
Qed.

Lemma split_last_one {A : Type} (s : list A) :
  0 <= len s - 1 ->
  exists c, s = firstn (Z.to_nat (len s - 1)) s ++ [c].
Proof.
  unfold len. intros H.
  destruct (firstn_all_but s 1 ltac:(lia)) as (t & Ht & E).
  destruct t as [|c [|? ?]]; try discriminate.
  exists c. replace (Z.to_nat _) with (length s - 1)%nat by lia. exact E.
Qed.

Lemma app_inv_two {A : Type} (s t : list A) a b c d :
  s ++ [a; b] = t ++ [c; d] -> s = t.
Proof.
  intros H. change [a; b] with ([a] ++ [b]) in H.
  change [c; d] with ([c] ++ [d]) in H. rewrite !app_assoc in H.
  apply app_inj_tail in H. destruct H as [H _].
  apply app_inj_tail in H. tauto.
Qed.

Lemma sliceTo_done {A : Type} (s : list A) n w w' s' :
  sliceTo s n w = (w', Some s') ->
  w' = w /\ 0 <= n <= len s /\ s' = firstn (Z.to_nat n) s.
Proof.
  unfold sliceTo.
  destruct (0 <=? n) eqn:H0; [|discriminate].
  destruct (n <=? len s) eqn:H1; [|discriminate].
  cbn [andb]. unfold ret. intros H. inversion H; subst.
  apply Z.leb_le in H0, H1. auto.
Qed.

(** ** Running the monad and unfolding the walk *)

Lemma bind_ok {A B : Type} (c : M A) (k : A -> M B) w w1 a :
  c w = (w1, Some a) -> bind c k w = k a w1.
Proof. unfold bind. intros ->. reflexivity. Qed.

Lemma bind_done {A B : Type} (c : M A) (k : A -> M B) w w' b :
  bind c k w = (w', Some b) ->
  exists w1 a, c w = (w1, Some a) /\ k a w1 = (w', Some b).
Proof.
  unfold bind. destruct (c w) as [w1 [a|]]; [|discriminate].
  intros H. now exists w1, a.
Qed.

Lemma walkNode_eq parent p children :
  walkNode parent (Tr p children) =
  (let node := mkNode p parent in
   status <- RenderNode node true ;;
   match status with
   | Terminate => ret false
   | SkipChildren => ret true
   | GoToNext =>
       if isContainer (Type_ p) then
         continue <- walkSiblings (Some node) children ;;
         if continue then
           status' <- RenderNode node false ;;
           ret (negb (isTerminate status'))
         else ret false
       else ret true
   end).
Proof. reflexivity. Qed.

Lemma walkSiblings_nil parent w : walkSiblings parent [] w = (w, Some true).
Proof. reflexivity. Qed.

Lemma walkSiblings_cons parent c ts :
  walkSiblings parent (c :: ts) =
  (continue <- walkNode parent c ;;
   if continue then walkSiblings parent ts else ret false).
Proof. reflexivity. Qed.

Lemma walkSiblings_app parent xs ys w :
  walkSiblings parent (xs ++ ys) w =
  match walkSiblings parent xs w with
  | (w1, Some true) => walkSiblings parent ys w1
  | (w1, Some false) => (w1, Some false)
  | (w1, None) => (w1, None)
  end.
Proof.
  revert w. induction xs as [|x xs IH]; intros w; [reflexivity|].
  cbn [app]. rewrite !walkSiblings_cons. unfold bind.
  destruct (walkNode parent x w) as [w1 [[|]|]]; [apply IH | reflexivity..].
Qed.

Lemma ofKind_true t p : ofKind t p = true <-> Type_ p = t.
Proof. unfold ofKind. destruct NodeType_eq_dec; split; congruence. Qed.

Lemma isType_true node t : typeOf node = t -> isType node t = true.
Proof. unfold isType. intros ->. destruct NodeType_eq_dec; congruence. Qed.

(** ** What one visit does, kind by kind *)

Lemma visit_Document node entering w :
  typeOf node = Document -> RenderNode node entering w = (w, Some GoToNext).
Proof. intros E. unfold RenderNode. rewrite E. reflexivity. Qed.

Lemma visit_BlockQuote_enter node w :
  typeOf node = BlockQuote ->
  RenderNode node true w =
  (mkWorld (set_paragraphDecoration
              (paragraphDecoration (rnd w) ++ bytes "> ") (rnd w))
           (sink w) (logged w), Some GoToNext).
Proof. intros E. unfold RenderNode. rewrite E. reflexivity. Qed.

Lemma visit_BlockQuote_exit node w d a b :
  typeOf node = BlockQuote ->
  paragraphDecoration (rnd w) = d ++ [a; b] ->
  RenderNode node false w =
  (mkWorld (set_paragraphDecoration d (rnd w)) (sink w) (logged w),
   Some GoToNext).
Proof.
  intros E Hd. unfold RenderNode. rewrite E.
  rewrite (bind_ok _ _ w (mkWorld (set_paragraphDecoration d (rnd w)) (sink w) (logged w)) tt);
    [reflexivity|].
  rewrite (bind_ok _ _ w w (d ++ [a; b])) by (unfold load; now rewrite Hd).
  rewrite (bind_ok _ _ w w d); [reflexivity|].
  change 2 with (len [a; b]). apply sliceTo_drop.
Qed.

Lemma visit_List_enter node w :
  typeOf node = List ->
  RenderNode node true w =
  (mkWorld (enterList (rnd w)) (sink w) (logged w), Some GoToNext).
Proof.
  intros E. unfold RenderNode. rewrite E.
  destruct w as [[pd lvl nld cs] s l]. unfold enterList.
  cbv [bind load store ret rnd sink logged set_orderedListCounters
       set_nestedListLevel set_nestedListDecoration paragraphDecoration
       nestedListLevel nestedListDecoration orderedListCounters].
  destruct (1 <? wrapInt (lvl + 1)); reflexivity.
Qed.

Lemma visit_List_exit_nested node pd lvl nld a b cs c s l :
  typeOf node = List ->
  1 < lvl ->
  RenderNode node false (mkWorld (mkRenderer pd lvl (nld ++ [a; b]) (cs ++ [c])) s l) =
  (mkWorld (mkRenderer pd (wrapInt (lvl - 1)) nld cs) s l, Some GoToNext).
Proof.
  intros E H. unfold RenderNode. rewrite E.
  cbv [bind load store ret rnd sink logged set_orderedListCounters
       set_nestedListLevel set_nestedListDecoration paragraphDecoration
       nestedListLevel nestedListDecoration orderedListCounters].
  replace (1 <? lvl) with true by (symmetry; apply Z.ltb_lt; exact H).
  change 2 with (len [a; b]). rewrite sliceTo_drop.
  change 1 with (len [c]). rewrite sliceTo_drop. reflexivity.
Qed.

Lemma visit_List_exit_outer node pd lvl nld cs c s l :
  typeOf node = List ->
  lvl <= 1 ->
  RenderNode node false (mkWorld (mkRenderer pd lvl nld (cs ++ [c])) s l) =
  (mkWorld (mkRenderer pd (wrapInt (lvl - 1)) nld cs) (s ++ newline) l,
   Some GoToNext).
Proof.
  intros E H. unfold RenderNode. rewrite E.
  cbv [bind load store ret rnd sink logged set_orderedListCounters Write
       set_nestedListLevel set_nestedListDecoration paragraphDecoration
       nestedListLevel nestedListDecoration orderedListCounters].
  replace (1 <? lvl) with false by (symmetry; apply Z.ltb_ge; exact H).
  change 1 with (len [c]) at 2. rewrite sliceTo_drop. reflexivity.
Qed.

Lemma visit_Item_enter_ordered node p pd lvl nld cs c s l :
  typeOf node = Item ->
  Parent node = Some p ->
  ordered p = true ->
  RenderNode node true (mkWorld (mkRenderer pd lvl nld (cs ++ [c])) s l) =
  (mkWorld (mkRenderer pd lvl nld (cs ++ [wrapInt (c + 1)]))
           (s ++ nld ++ Itoa (wrapInt (c + 1))
              ++ [Delimiter (listData (payload node))] ++ bytes " ") l,
   Some GoToNext).
Proof.
  intros E Hp Ho. unfold RenderNode. rewrite E, Hp.
  unfold ordered in Ho.
  cbv [bind load store ret rnd sink logged set_orderedListCounters Write deref
       paragraphDecoration nestedListLevel nestedListDecoration
       orderedListCounters].
  rewrite Ho, index_last, assign_last, index_last.
  rewrite <- !app_assoc. reflexivity.
Qed.

Lemma visit_Item_enter_term node p w :
  typeOf node = Item ->
  Parent node = Some p ->
  ordered p = false ->
  term p = true ->
  RenderNode node true w =
  (mkWorld (rnd w) (sink w ++ nestedListDecoration (rnd w))
           (logged w ++ [DefinitionListsNotImplemented]),
   Some GoToNext).
Proof.
  intros E Hp Ho Ht. unfold RenderNode. rewrite E, Hp.
  unfold ordered in Ho. unfold term in Ht.
  cbv [bind load store ret rnd sink logged Write deref logLine].
  rewrite Ho, Ht. reflexivity.
Qed.

Lemma visit_Item_enter_bullet node p w :
  typeOf node = Item ->
  Parent node = Some p ->
  ordered p = false ->
  term p = false ->
  RenderNode node true w =
  (mkWorld (rnd w)
           (sink w ++ nestedListDecoration (rnd w)
              ++ [BulletChar (listData (payload node))] ++ bytes " ")
           (logged w),
   Some GoToNext).
Proof.
  intros E Hp Ho Ht. unfold RenderNode. rewrite E, Hp.
  unfold ordered in Ho. unfold term in Ht.
  cbv [bind load store ret rnd sink logged Write deref logLine].
  rewrite Ho, Ht. rewrite <- !app_assoc. reflexivity.
Qed.

Lemma visit_Item_exit node w :
  typeOf node = Item -> RenderNode node false w = (w, Some GoToNext).
Proof. intros E. unfold RenderNode. rewrite E. reflexivity. Qed.

Lemma skipParagraphTags_parent node p w :
  Parent node = Some p ->
  exists b, skipParagraphTags node w = (w, Some b).
Proof.
  intros Hp. unfold skipParagraphTags. rewrite Hp.
  destruct (isType p BlockQuote); [eexists; reflexivity|].
  cbv [bind deref ret].
  destruct (Parent p) as [g|]; [|eexists; reflexivity].
  destruct (isType g List); eexists; reflexivity.
Qed.

Lemma skipParagraphTags_value node p w :
  Parent node = Some p ->
  skipParagraphTags node w = (w, Some (secondNewlineSuppressed p)).
Proof.
  intros Hp. unfold skipParagraphTags, secondNewlineSuppressed. rewrite Hp.
  destruct (isType p BlockQuote); [reflexivity|].
  cbv [bind deref ret]. cbn [orb].
  destruct (Parent p) as [g|]; [|reflexivity].
  destruct (isType g List); reflexivity.
Qed.

Lemma visit_Paragraph_enter node w :
  typeOf node = Paragraph ->
  RenderNode node true w =
    (mkWorld (rnd w) (sink w ++ paragraphDecoration (rnd w)) (logged w),
     Some GoToNext).
Proof. intros E. unfold RenderNode. rewrite E. reflexivity. Qed.

Lemma visit_Paragraph_exit node p w :
  typeOf node = Paragraph ->
  Parent node = Some p ->
  RenderNode node false w =
    (mkWorld (rnd w)
       (sink w ++ newline ++ (if secondNewlineSuppressed p then [] else newline))
       (logged w),
     Some GoToNext).
Proof.
  intros E Hp. unfold RenderNode. rewrite E. cbv [bind Write].
  rewrite (skipParagraphTags_value node p _ Hp).
  destruct (secondNewlineSuppressed p); cbn [negb];
    cbv [ret Write]; cbn [rnd sink logged].
  - now rewrite app_nil_r.
  - now rewrite <- app_assoc.
Qed.

(** Kinds whose visits leave the renderer's fields alone. *)
Lemma visit_plain node entering w :
  typeOf node <> BlockQuote ->
  typeOf node <> List ->
  (typeOf node = Item -> entering = false) ->
  (typeOf node = Paragraph -> entering = false -> Parent node <> None) ->
  exists w1 status,
    RenderNode node entering w = (w1, Some status) /\
    rnd w1 = rnd w /\ status <> Terminate.
Proof.
  intros HQ HL HI HP. unfold RenderNode.
  destruct (typeOf node) eqn:E; try congruence;
    try (destruct entering; eexists _, _;
         (split; [reflexivity | split; [reflexivity | discriminate]])).
  - rewrite (HI eq_refl). eexists _, _.
    split; [reflexivity | split; [reflexivity | discriminate]].
  - destruct entering.
    + eexists _, _. split; [reflexivity | split; [reflexivity | discriminate]].
    + destruct (Parent node) as [p|] eqn:Hp; [|now specialize (HP eq_refl eq_refl)].
      destruct (skipParagraphTags_parent node p
                  (mkWorld (rnd w) (sink w ++ newline) (logged w)) Hp) as [b Hb].
      cbv [bind Write]. rewrite Hb.
      destruct b; eexists _, _;
        (split; [reflexivity | split; [reflexivity | discriminate]]).
Qed.

Lemma visit_unsupported node :
  unsupported (typeOf node) = true ->
  exists line, forall entering w,
    RenderNode node entering w =
      (mkWorld (rnd w) (sink w) (logged w ++ [line]), Some SkipChildren).
Proof.
  intros H. unfold RenderNode.
  destruct (typeOf node); try discriminate H; eexists; intros; reflexivity.
Qed.

(** ** Renderers that differ in the innermost counter *)

Lemma sameButTop_refl r : sameButTop r r.
Proof. repeat split. Qed.

Lemma sameButTop_eq r r' : r' = r -> sameButTop r r'.
Proof. intros ->. apply sameButTop_refl. Qed.

Lemma sameButTop_trans r1 r2 r3 :
  sameButTop r1 r2 -> sameButTop r2 r3 -> sameButTop r1 r3.
Proof. unfold sameButTop. intuition congruence. Qed.

Lemma sameButTop_nonempty r r' :
  sameButTop r r' -> orderedListCounters r <> [] -> orderedListCounters r' <> [].
Proof.
  intros (_ & _ & _ & _ & H) Hne E. rewrite E in H.
  destruct (orderedListCounters r); [congruence | discriminate].
Qed.

Lemma sameButTop_top pd lvl nld cs c r' :
  sameButTop (mkRenderer pd lvl nld (cs ++ [c])) r' ->
  exists c', r' = mkRenderer pd lvl nld (cs ++ [c']).
Proof.
  destruct r' as [pd' lvl' nld' cs']. unfold sameButTop. cbn.
  intros (-> & -> & -> & Hr & Hl).
  rewrite removelast_last in Hr.
  destruct (exists_last (l := cs')) as (cs0 & c' & ->).
  { intros ->. rewrite length_app in Hl. cbn in Hl. lia. }
  rewrite removelast_last in Hr. subst cs0. now exists c'.
Qed.

(** ** Completed visits

    What is known of the renderer once a visit has returned. *)

Lemma visit_done_status node entering w w' status :
  RenderNode node entering w = (w', Some status) -> status <> Terminate.
Proof.
  unfold RenderNode.
  destruct (typeOf node);
    cbv [bind]; repeat
      match goal with
      | |- context [match ?c ?x with _ => _ end] =>
          destruct (c x) as [? [?|]]
      | |- context [match (if ?b then _ else _) ?x with _ => _ end] =>
          destruct (if b then _ else _) as [? [?|]]
      end;
    cbv [ret]; intros H; inversion H; discriminate.
Qed.

Lemma visit_done_plain node entering w w' status :
  RenderNode node entering w = (w', Some status) ->
  typeOf node <> BlockQuote ->
  typeOf node <> List ->
  (typeOf node = Item -> entering = false) ->
  rnd w' = rnd w.
Proof.
  intros H HQ HL HI.
  destruct (NodeType_eq_dec (typeOf node) Paragraph) as [E|E].
  - destruct entering.
    + unfold RenderNode in H. rewrite E in H. inversion H. reflexivity.
    + destruct (Parent node) as [p|] eqn:Hp.
      * rewrite (visit_Paragraph_exit node p w E Hp) in H.
        inversion H. reflexivity.
      * unfold RenderNode, skipParagraphTags in H. rewrite E, Hp in H.
        discriminate H.
  - destruct (visit_plain node entering w HQ HL HI) as (w1 & st & E1 & R1 & _).
    + intros E'. contradiction.
    + rewrite E1 in H. inversion H; subst. exact R1.
Qed.

Lemma visit_done_BlockQuote_exit node w w' status :
  RenderNode node false w = (w', Some status) ->
  typeOf node = BlockQuote ->
  exists a b,
    paragraphDecoration (rnd w) = paragraphDecoration (rnd w') ++ [a; b] /\
    rnd w' = set_paragraphDecoration (paragraphDecoration (rnd w')) (rnd w).
Proof.
  intros H E. unfold RenderNode in H. rewrite E in H.
  cbv [bind load store ret] in H.
  destruct (sliceTo _ _ w) as [w1 [d|]] eqn:S; [|discriminate].
  apply sliceTo_done in S. destruct S as (-> & [H0 _] & ->).
  inversion H; subst; clear H. cbn.
  destruct (split_last_two _ H0) as (a & b & Hs).
  exists a, b. split; [exact Hs | reflexivity].
Qed.

Lemma visit_done_List_exit node w w' status :
  RenderNode node false w = (w', Some status) ->
  typeOf node = List ->
  (exists c, orderedListCounters (rnd w) = orderedListCounters (rnd w') ++ [c]) /\
  nestedListLevel (rnd w') = wrapInt (nestedListLevel (rnd w) - 1) /\
  paragraphDecoration (rnd w') = paragraphDecoration (rnd w) /\
  (if 1 <? nestedListLevel (rnd w)
   then exists a b,
       nestedListDecoration (rnd w) = nestedListDecoration (rnd w') ++ [a; b]
   else nestedListDecoration (rnd w') = nestedListDecoration (rnd w)).
Proof.
  intros H E. unfold RenderNode in H. rewrite E in H.
  destruct w as [[pd lvl nld cs] s l].
  cbv [bind load store ret rnd sink logged Write set_orderedListCounters
       set_nestedListLevel set_nestedListDecoration paragraphDecoration
       nestedListLevel nestedListDecoration orderedListCounters] in H.
  cbn [rnd paragraphDecoration nestedListLevel nestedListDecoration
       orderedListCounters].
  destruct (1 <? lvl).
  - destruct (sliceTo nld _ _) as [w1 [d|]] eqn:S; [|discriminate].
    apply sliceTo_done in S. destruct S as (-> & [H0 _] & ->).
    destruct (sliceTo cs _ _) as [w2 [d|]] eqn:S; [|discriminate].
    apply sliceTo_done in S. destruct S as (-> & [H1 _] & ->).
    inversion H; subst; clear H. cbn.
    repeat split.
    + apply split_last_one. exact H1.
    + apply split_last_two. exact H0.
  - destruct (sliceTo cs _ _) as [w2 [d|]] eqn:S; [|discriminate].
    apply sliceTo_done in S. destruct S as (-> & [H1 _] & ->).
    inversion H; subst; clear H. cbn.
    repeat split. apply split_last_one. exact H1.
Qed.

Lemma visit_done_Item_enter node w w' status :
  RenderNode node true w = (w', Some status) ->
  typeOf node = Item ->
  exists p,
    Parent node = Some p /\
    if ordered p
    then exists cs c,
        orderedListCounters (rnd w) = cs ++ [c] /\
        rnd w' = set_orderedListCounters (cs ++ [wrapInt (c + 1)]) (rnd w)
    else rnd w' = rnd w.
Proof.
  intros H E.
  destruct (Parent node) as [p|] eqn:Hp.
  2:{ unfold RenderNode in H. rewrite E, Hp in H. discriminate H. }
  exists p. split; [reflexivity|].
  destruct (ordered p) eqn:Ho.
  - destruct (orderedListCounters (rnd w)) as [|c0 cs0] eqn:Hcs.
    { destruct w as [[pd lvl nld cs'] s l]. cbn in Hcs. subst cs'.
      unfold RenderNode in H. rewrite E, Hp in H. unfold ordered in Ho.
      cbv [bind load store ret Write deref rnd sink logged
           nestedListDecoration orderedListCounters] in H.
      rewrite Ho in H. cbn in H. discriminate H. }
    destruct (exists_last (l := c0 :: cs0)) as (cs & c & Hl); [discriminate|].
    rewrite Hl in Hcs. exists cs, c. split; [exact Hl|].
    destruct w as [[pd lvl nld cs'] s l]. cbn in Hcs. subst cs'.
    rewrite (visit_Item_enter_ordered node p _ _ _ _ _ _ _ E Hp Ho) in H.
    inversion H. reflexivity.
  - destruct (term p) eqn:Ht.
    + rewrite (visit_Item_enter_term node p w E Hp Ho Ht) in H.
      inversion H. reflexivity.
    + rewrite (visit_Item_enter_bullet node p w E Hp Ho Ht) in H.
      inversion H. reflexivity.
Qed.

Lemma visit_enter_effect node w w1 status :
  RenderNode node true w = (w1, Some status) ->
  match typeOf node with
  | BlockQuote =>
      rnd w1 = set_paragraphDecoration
                 (paragraphDecoration (rnd w) ++ bytes "> ") (rnd w)
  | List => rnd w1 = enterList (rnd w)
  | _ => sameButTop (rnd w) (rnd w1)
  end.
Proof.
  intros H.
  destruct (NodeType_eq_dec (typeOf node) BlockQuote) as [EQ|EQ].
  { rewrite EQ. rewrite (visit_BlockQuote_enter node w EQ) in H.
    inversion H. reflexivity. }
  destruct (NodeType_eq_dec (typeOf node) List) as [EL|EL].
  { rewrite EL. rewrite (visit_List_enter node w EL) in H.
    inversion H. reflexivity. }
  assert (sameButTop (rnd w) (rnd w1)).
  { destruct (NodeType_eq_dec (typeOf node) Item) as [EI|EI].
    - destruct (visit_done_Item_enter node w w1 status H EI) as (p & _ & R).
      destruct (ordered p).
      + destruct R as (cs & c & Hc & ->). unfold sameButTop. cbn.
        rewrite Hc, !removelast_last, !length_app. auto.
      + now apply sameButTop_eq.
    - apply sameButTop_eq.
      apply (visit_done_plain node true w w1 status H EQ EL).
      intros; contradiction. }
  destruct (typeOf node); auto; contradiction.
Qed.

(** ** The sink and the log are append-only *)

Lemma framed_ret {A : Type} (a : A) : framed (ret a).
Proof. intros [r s l]. unfold extend, ret. cbn. now rewrite !app_nil_r. Qed.

Lemma framed_panic {A : Type} : framed (@panic A).
Proof. intros [r s l]. unfold extend, panic. cbn. now rewrite !app_nil_r. Qed.

Lemma framed_bind {A B : Type} (c : M A) (k : A -> M B) :
  framed c -> (forall a, framed (k a)) -> framed (bind c k).
Proof.
  intros Hc Hk w. unfold bind. rewrite (Hc w).
  destruct (c (mkWorld (rnd w) [] [])) as [w0 [a|]]; unfold extend; cbn.
  - rewrite (Hk a (mkWorld _ _ _)), (Hk a w0). unfold extend. cbn.
    now rewrite !app_assoc.
  - reflexivity.
Qed.

Lemma framed_if {A : Type} (b : bool) (c1 c2 : M A) :
  framed c1 -> framed c2 -> framed (if b then c1 else c2).
Proof. destruct b; auto. Qed.

Lemma framed_load {A : Type} (f : Renderer -> A) : framed (load f).
Proof. intros [r s l]. unfold extend, load. cbn. now rewrite !app_nil_r. Qed.

Lemma framed_store f : framed (store f).
Proof. intros [r s l]. unfold extend, store. cbn. now rewrite !app_nil_r. Qed.

Lemma framed_Write b : framed (Write b).
Proof. intros [r s l]. unfold extend, Write. cbn. now rewrite !app_nil_r. Qed.

Lemma framed_logLine x : framed (logLine x).
Proof. intros [r s l]. unfold extend, logLine. cbn. now rewrite !app_nil_r. Qed.

Lemma framed_sliceTo {A : Type} (s : list A) n : framed (sliceTo s n).
Proof. unfold sliceTo. apply framed_if; [apply framed_ret | apply framed_panic]. Qed.

Lemma framed_index {A : Type} (s : list A) i : framed (index s i).
Proof.
  unfold index. apply framed_if; [|apply framed_panic].
  destruct (nth_error s (Z.to_nat i)); [apply framed_ret | apply framed_panic].
Qed.

Lemma framed_deref p : framed (deref p).
Proof. destruct p; [apply framed_ret | apply framed_panic]. Qed.

Create HintDb framed.
#[local] Hint Resolve framed_ret framed_panic framed_load framed_store
  framed_Write framed_logLine framed_sliceTo framed_index framed_deref
  : framed.

Ltac framed_step :=
  first
    [ solve [auto with framed]
    | apply framed_bind; [|intros ?]
    | apply framed_if ].

Lemma framed_skipParagraphTags node : framed (skipParagraphTags node).
Proof.
  unfold skipParagraphTags. repeat framed_step.
  destruct (Parent a); repeat framed_step.
Qed.

Lemma framed_RenderNode node entering : framed (RenderNode node entering).
Proof.
  pose proof (framed_skipParagraphTags node).
  unfold RenderNode. destruct (typeOf node); repeat framed_step.
Qed.

Lemma framed_inOrder visit ts :
  Forall (fun t => framed (visit t)) ts -> framed (inOrder visit ts).
Proof.
  induction 1 as [|t ts Ht _ IH]; cbn [inOrder]; [apply framed_ret|].
  apply framed_bind; [exact Ht|]. intros b.
  apply framed_if; [exact IH | apply framed_ret].
Qed.

Lemma framed_walkNode t : forall parent, framed (walkNode parent t).
Proof.
  induction t as [p children IH] using Tree_ind. intros parent.
  rewrite walkNode_eq. cbv zeta.
  apply framed_bind; [apply framed_RenderNode|]. intros status.
  destruct status; try apply framed_ret.
  apply framed_if; [|apply framed_ret].
  apply framed_bind.
  - apply framed_inOrder. rewrite Forall_forall in *. intros t Ht.
    now apply IH.
  - intros b. apply framed_if; [|apply framed_ret].
    apply framed_bind; [apply framed_RenderNode|]. intros ?. apply framed_ret.
Qed.

Lemma framed_walkSiblings parent ts : framed (walkSiblings parent ts).
Proof.
  apply framed_inOrder. rewrite Forall_forall. intros t _.
  apply framed_walkNode.
Qed.

Lemma sink_framed {A : Type} (c : M A) w :
  framed c -> sink (fst (c w)) = sink w ++ emitted c (rnd w).
Proof. intros H. rewrite (H w). reflexivity. Qed.

Lemma emitted_single parent t r :
  emitted (walkSiblings parent [t]) r = emitted (walkNode parent t) r.
Proof.
  unfold emitted. rewrite walkSiblings_cons. unfold bind.
  destruct (walkNode parent t _) as [w1 [[|]|]]; reflexivity.
Qed.

(** ** Well-formed trees and balanced walks *)

Lemma siblings_balanced parent ts :
  Forall (balancedFrom parent) ts ->
  forall w,
    inInt (nestedListLevel (rnd w)) ->
    (Forall noItem ts \/ orderedListCounters (rnd w) <> []) ->
    exists w',
      walkSiblings (Some parent) ts w = (w', Some true) /\
      sameButTop (rnd w) (rnd w') /\
      (Forall noItem ts -> rnd w' = rnd w).
Proof.
  induction 1 as [|t ts Ht _ IH]; intros w Hlvl Hcs.
  - exists w. rewrite walkSiblings_nil. auto using sameButTop_refl.
  - destruct (Ht w Hlvl) as (w1 & E1 & S1 & K1).
    { intros Hi. destruct Hcs as [Hn|Hn]; [|exact Hn].
      inversion Hn; subst. contradiction. }
    destruct (IH w1) as (w2 & E2 & S2 & K2).
    { destruct S1 as (_ & -> & _). exact Hlvl. }
    { destruct Hcs as [Hn|Hn]; [left; now inversion Hn|right].
      eapply sameButTop_nonempty; eauto. }
    exists w2. rewrite walkSiblings_cons, (bind_ok _ _ _ _ _ E1).
    split; [exact E2|]. split; [eapply sameButTop_trans; eauto|].
    intros Hn. inversion Hn; subst. rewrite K2, K1; auto.
Qed.

Lemma wellFormed_children p children :
  wellFormed (Tr p children) = true ->
  Forall (fun c => wellFormed c = true) children /\
  (Type_ p <> List -> Forall noItem children).
Proof.
  cbn [wellFormed]. rewrite andb_true_iff, !forallb_forall, !Forall_forall.
  intros [H1 H2]. split; [exact H2|].
  intros Hp c Hc Hi. specialize (H1 c Hc).
  apply (proj2 (ofKind_true Item _)) in Hi. rewrite Hi in H1. cbn in H1.
  apply ofKind_true in H1. contradiction.
Qed.

Lemma wellFormed_single p t :
  Type_ (rootPayload t) <> Item ->
  wellFormed t = true ->
  wellFormed (Tr p [t]) = true.
Proof.
  intros Hi Hwf. cbn [wellFormed forallb]. rewrite Hwf.
  unfold ofKind at 1. destruct NodeType_eq_dec; [contradiction|reflexivity].
Qed.

Lemma walk_plain_balanced parent p children :
  Type_ p <> BlockQuote -> Type_ p <> List -> Type_ p <> Item ->
  Forall noItem children ->
  Forall (balancedFrom (mkNode p (Some parent))) children ->
  balancedFrom parent (Tr p children).
Proof.
  intros HQ HL HI Hno Hch w Hlvl _.
  set (node := mkNode p (Some parent)).
  destruct (visit_plain node true w) as (w1 & st & E1 & R1 & T1);
    [assumption | assumption | intros; contradiction | discriminate |].
  rewrite walkNode_eq. cbv zeta. fold node. rewrite (bind_ok _ _ _ _ _ E1).
  destruct st; [| |contradiction].
  2:{ exists w1. split; [reflexivity|]. split; [now apply sameButTop_eq|auto]. }
  destruct (isContainer (Type_ p)).
  2:{ exists w1. split; [reflexivity|]. split; [now apply sameButTop_eq|auto]. }
  destruct (siblings_balanced node children Hch w1) as (w2 & E2 & _ & K2);
    [now rewrite R1 | now left |].
  rewrite (bind_ok _ _ _ _ _ E2).
  destruct (visit_plain node false w2) as (w3 & st' & E3 & R3 & T3);
    [assumption | assumption | reflexivity | discriminate |].
  rewrite (bind_ok _ _ _ _ _ E3).
  exists w3. split; [destruct st'; [reflexivity..|contradiction]|].
  assert (rnd w3 = rnd w) by (rewrite R3, K2, R1; auto).
  split; [now apply sameButTop_eq|auto].
Qed.

Lemma walk_BlockQuote_balanced parent p children :
  Type_ p = BlockQuote ->
  Forall noItem children ->
  Forall (balancedFrom (mkNode p (Some parent))) children ->
  balancedFrom parent (Tr p children).
Proof.
  intros HQ Hno Hch w Hlvl _.
  set (node := mkNode p (Some parent)).
  rewrite walkNode_eq. cbv zeta. fold node.
  rewrite (bind_ok _ _ _ _ _ (visit_BlockQuote_enter node w HQ)), HQ.
  cbn [isContainer].
  match goal with |- context [bind (walkSiblings _ _) _ ?w1] =>
    destruct (siblings_balanced node children Hch w1) as (w2 & E2 & _ & K2);
      [exact Hlvl | now left |]
  end.
  rewrite (bind_ok _ _ _ _ _ E2). specialize (K2 Hno). cbn in K2.
  erewrite bind_ok.
  2:{ apply (visit_BlockQuote_exit node w2 (paragraphDecoration (rnd w)) ">"%byte " "%byte HQ).
      rewrite K2. reflexivity. }
  eexists. split; [reflexivity|]. cbn [rnd]. rewrite K2. clear.
  destruct (rnd w). split; [apply sameButTop_refl | reflexivity].
Qed.

Lemma walk_List_balanced parent p children :
  Type_ p = List ->
  Forall (balancedFrom (mkNode p (Some parent))) children ->
  balancedFrom parent (Tr p children).
Proof.
  intros HL Hch w Hlvl _.
  set (node := mkNode p (Some parent)).
  rewrite walkNode_eq. cbv zeta. fold node.
  rewrite (bind_ok _ _ _ _ _ (visit_List_enter node w HL)), HL.
  cbn [isContainer].
  destruct w as [[pd lvl nld cs] s l]. cbn in Hlvl.
  unfold enterList. cbn [rnd sink logged paragraphDecoration nestedListLevel
                         nestedListDecoration orderedListCounters].
  match goal with |- context [bind (walkSiblings _ _) _ ?w1] =>
    destruct (siblings_balanced node children Hch w1) as (w2 & E2 & S2 & _)
  end.
  { cbn. apply wrapInt_inInt. }
  { right. cbn. intros E. apply app_eq_nil in E. destruct E; discriminate. }
  rewrite (bind_ok _ _ _ _ _ E2).
  cbn [rnd] in S2. apply sameButTop_top in S2. destruct S2 as [c' R2].
  destruct w2 as [r2 s2 l2]. cbn [rnd] in R2. subst r2.
  destruct (Z.ltb_spec 1 (wrapInt (lvl + 1))) as [Hn|Hn].
  - change (bytes "  ") with [" "%byte; " "%byte].
    rewrite (bind_ok _ _ _ _ _ (visit_List_exit_nested node _ _ _ _ _ _ _ _ _ HL Hn)).
    eexists. split; [reflexivity|]. cbn [rnd].
    rewrite wrapInt_up_down by exact Hlvl.
    split; [apply sameButTop_refl | reflexivity].
  - rewrite (bind_ok _ _ _ _ _ (visit_List_exit_outer node _ _ _ _ _ _ _ HL Hn)).
    eexists. split; [reflexivity|]. cbn [rnd].
    rewrite wrapInt_up_down by exact Hlvl.
    split; [apply sameButTop_refl | reflexivity].
Qed.

Lemma walk_Item_balanced parent p children :
  Type_ p = Item ->
  Forall noItem children ->
  Forall (balancedFrom (mkNode p (Some parent))) children ->
  balancedFrom parent (Tr p children).
Proof.
  intros HI Hno Hch w Hlvl Hcs. specialize (Hcs HI).
  set (node := mkNode p (Some parent)).
  assert (Henter : exists w1, RenderNode node true w = (w1, Some GoToNext) /\
                              sameButTop (rnd w) (rnd w1)).
  { destruct (ordered parent) eqn:Ho.
    - destruct w as [[pd lvl nld cs] s l]. cbn in Hcs.
      destruct (exists_last Hcs) as (cs0 & c & ->).
      eexists. split.
      + apply (visit_Item_enter_ordered node parent); auto.
      + cbn. unfold sameButTop. cbn. rewrite !removelast_last, !length_app. auto.
    - destruct (term parent) eqn:Ht.
      + eexists. split; [apply (visit_Item_enter_term node parent); auto|].
        apply sameButTop_refl.
      + eexists. split; [apply (visit_Item_enter_bullet node parent); auto|].
        apply sameButTop_refl. }
  destruct Henter as (w1 & E1 & S1).
  rewrite walkNode_eq. cbv zeta. fold node.
  rewrite (bind_ok _ _ _ _ _ E1), HI. cbn [isContainer].
  destruct (siblings_balanced node children Hch w1) as (w2 & E2 & _ & K2).
  { destruct S1 as (_ & -> & _). exact Hlvl. }
  { now left. }
  rewrite (bind_ok _ _ _ _ _ E2).
  rewrite (bind_ok _ _ _ _ _ (visit_Item_exit node w2 HI)).
  exists w2. split; [reflexivity|]. rewrite (K2 Hno).
  split; [exact S1 | intros; contradiction].
Qed.

(** Walking a well-formed subtree never panics, is never terminated, and
    restores the renderer; an item leaves its mark on the innermost counter
    only. *)
Lemma walkNode_balanced t :
  wellFormed t = true -> forall parent, balancedFrom parent t.
Proof.
  induction t as [p children IH] using Tree_ind. intros Hwf parent.
  apply wellFormed_children in Hwf. destruct Hwf as [Hwf Hno].
  assert (Hch : Forall (balancedFrom (mkNode p (Some parent))) children).
  { rewrite Forall_forall in *. intros c Hc. apply IH; auto. }
  destruct (NodeType_eq_dec (Type_ p) List) as [HL|HL];
    [now apply walk_List_balanced|].
  specialize (Hno HL).
  destruct (NodeType_eq_dec (Type_ p) BlockQuote) as [HQ|HQ];
    [now apply walk_BlockQuote_balanced|].
  destruct (NodeType_eq_dec (Type_ p) Item) as [HI|HI];
    [now apply walk_Item_balanced|].
  now apply walk_plain_balanced.
Qed.

Lemma balanced_children p parent children :
  wellFormed (Tr p children) = true ->
  Forall (balancedFrom (mkNode p parent)) children.
Proof.
  intros H. apply wellFormed_children in H. destruct H as [H _].
  rewrite Forall_forall in *. intros c Hc. apply walkNode_balanced; auto.
Qed.

Lemma walk_Document_balanced p children w :
  Type_ p = Document ->
  wellFormed (Tr p children) = true ->
  inInt (nestedListLevel (rnd w)) ->
  exists w', Walk (Tr p children) w = (w', Some true) /\ rnd w' = rnd w.
Proof.
  intros HD Hwf Hlvl. unfold Walk.
  apply wellFormed_children in Hwf. destruct Hwf as [Hwf Hno].
  assert (HL : Type_ p <> List) by (rewrite HD; discriminate).
  set (node := mkNode p None).
  assert (Hch : Forall (balancedFrom node) children).
  { rewrite Forall_forall in *. intros c Hc. apply walkNode_balanced; auto. }
  destruct (siblings_balanced node children Hch w Hlvl) as (w2 & E2 & _ & K2);
    [left; auto|].
  rewrite walkNode_eq. cbv zeta. fold node.
  rewrite (bind_ok _ _ _ _ _ (visit_Document node true w HD)), HD.
  cbn [isContainer]. rewrite (bind_ok _ _ _ _ _ E2).
  rewrite (bind_ok _ _ _ _ _ (visit_Document node false w2 HD)).
  exists w2. split; [reflexivity | auto].
Qed.

(** ** Walks that return

    Whatever the shape of the tree, a walk that returns has restored the
    renderer, up to the innermost counter. *)

Lemma siblings_preserved parent ts :
  Forall (preservedBy parent) ts ->
  forall w w' b,
    inInt (nestedListLevel (rnd w)) ->
    walkSiblings parent ts w = (w', Some b) ->
    b = true /\ sameButTop (rnd w) (rnd w').
Proof.
  induction 1 as [|t ts Ht _ IH]; intros w w' b Hlvl Hrun.
  - rewrite walkSiblings_nil in Hrun. inversion Hrun; subst.
    split; [reflexivity | apply sameButTop_refl].
  - rewrite walkSiblings_cons in Hrun.
    apply bind_done in Hrun. destruct Hrun as (w1 & k & E1 & Hrun).
    destruct (Ht w w1 k Hlvl E1) as [-> S1].
    destruct (IH w1 w' b) as [-> S2]; [|exact Hrun|].
    { destruct S1 as (_ & -> & _). exact Hlvl. }
    split; [reflexivity | eapply sameButTop_trans; eauto].
Qed.

Lemma walkNode_preserved t : forall parent, preservedBy parent t.
Proof.
  induction t as [p children IH] using Tree_ind. intros parent w w' b Hlvl Hrun.
  set (node := mkNode p parent) in *.
  assert (Hch : Forall (preservedBy (Some node)) children).
  { rewrite Forall_forall in *. intros c Hc. apply IH. exact Hc. }
  rewrite walkNode_eq in Hrun. cbv zeta in Hrun. fold node in Hrun.
  apply bind_done in Hrun. destruct Hrun as (w1 & st & E1 & Hrun).
  pose proof (visit_enter_effect node w w1 st E1) as Heff.
  pose proof (visit_done_status node true w w1 st E1) as Hst.
  change (typeOf node) with (Type_ p) in Heff.
  assert (Hskip : st = SkipChildren \/ isContainer (Type_ p) = false ->
                  sameButTop (rnd w) (rnd w1)).
  { intros Hs. destruct (Type_ p) eqn:E; try exact Heff.
    - rewrite (visit_BlockQuote_enter node w E) in E1. inversion E1; subst.
      destruct Hs; discriminate.
    - rewrite (visit_List_enter node w E) in E1. inversion E1; subst.
      destruct Hs; discriminate. }
  destruct st; [| |contradiction].
  2:{ inversion Hrun; subst. auto. }
  destruct (isContainer (Type_ p)) eqn:Hcont.
  2:{ inversion Hrun; subst. auto. }
  clear Hskip.
  apply bind_done in Hrun. destruct Hrun as (w2 & k & E2 & Hrun).
  assert (Hlvl1 : inInt (nestedListLevel (rnd w1))).
  { destruct (Type_ p); try (destruct Heff as (_ & -> & _); exact Hlvl).
    - rewrite Heff. exact Hlvl.
    - rewrite Heff. cbn. apply wrapInt_inInt. }
  destruct (siblings_preserved (Some node) children Hch w1 w2 k Hlvl1 E2)
    as [-> S2].
  apply bind_done in Hrun. destruct Hrun as (w3 & st' & E3 & Hrun).
  pose proof (visit_done_status node false w2 w3 st' E3) as Hst'.
  inversion Hrun; subst. split; [destruct st'; auto; contradiction|].
  destruct (NodeType_eq_dec (Type_ p) BlockQuote) as [EQ|EQ].
  { rewrite EQ in Heff.
    destruct (visit_done_BlockQuote_exit node w2 w' st' E3 EQ)
      as (a & c & Hpd & R3).
    destruct S2 as (P2 & L2 & N2 & C2 & D2).
    rewrite Heff in P2, L2, N2, C2, D2. cbn in P2, L2, N2, C2, D2.
    rewrite P2 in Hpd. apply app_inv_two in Hpd.
    rewrite R3. unfold sameButTop. cbn. auto. }
  destruct (NodeType_eq_dec (Type_ p) List) as [EL|EL].
  { rewrite EL in Heff.
    destruct (visit_done_List_exit node w2 w' st' E3 EL)
      as ([c Hc] & Hl & Hp & Hn).
    destruct w as [[pd lvl nld cs] s l]. cbn [rnd] in *.
    rewrite Heff in S2. unfold enterList in S2. cbn in S2.
    apply sameButTop_top in S2. destruct S2 as [c' R2].
    rewrite R2 in Hc, Hl, Hp, Hn. cbn in Hc, Hl, Hp, Hn, Hlvl.
    apply app_inj_tail in Hc. destruct Hc as [Hc _].
    rewrite wrapInt_up_down in Hl by exact Hlvl.
    apply sameButTop_eq. destruct (rnd w') as [pd' lvl' nld' cs'].
    cbn in Hc, Hl, Hp, Hn. subst pd' lvl' cs'. f_equal.
    destruct (1 <? wrapInt (lvl + 1)); [|exact Hn].
    destruct Hn as (a & b & Hn). symmetry. apply (app_inv_two _ _ _ _ _ _ Hn). }
  assert (S1 : sameButTop (rnd w) (rnd w1))
    by (destruct (Type_ p); auto; contradiction).
  assert (R3 : rnd w' = rnd w2).
  { destruct (NodeType_eq_dec (Type_ p) Item) as [EI|EI].
    - rewrite (visit_Item_exit node w2 EI) in E3. inversion E3. reflexivity.
    - apply (visit_done_plain node false w2 w' st' E3 EQ EL).
      intros; contradiction. }
  rewrite R3. eapply sameButTop_trans; eauto.
Qed.

(** ** What a subtree writes *)

(** A paragraph writes the quote prefix, then what its children write, then
    one or two newlines. *)
Lemma walk_Paragraph parent pp cs w :
  Type_ pp = Paragraph ->
  wellFormed (Tr pp cs) = true ->
  inInt (nestedListLevel (rnd w)) ->
  exists w',
    walkNode (Some parent) (Tr pp cs) w = (w', Some true) /\
    rnd w' = rnd w /\
    sink w' =
      sink w ++ paragraphDecoration (rnd w)
      ++ emitted (walkSiblings (Some (mkNode pp (Some parent))) cs) (rnd w)
      ++ newline ++ (if secondNewlineSuppressed parent then [] else newline).
Proof.
  intros E Hwf Hlvl. set (node := mkNode pp (Some parent)).
  pose proof (balanced_children pp (Some parent) cs Hwf) as Hch. fold node in Hch.
  apply wellFormed_children in Hwf. destruct Hwf as [_ Hno].
  assert (HL : Type_ pp <> List) by (rewrite E; discriminate).
  rewrite walkNode_eq. cbv zeta. fold node.
  rewrite (bind_ok _ _ _ _ _ (visit_Paragraph_enter node w E)), E.
  cbn [isContainer].
  match goal with |- context [bind (walkSiblings _ _) _ ?w1] =>
    destruct (siblings_balanced node cs Hch w1) as (w2 & E2 & _ & K2);
      [exact Hlvl | left; auto |];
    pose proof (sink_framed _ w1 (framed_walkSiblings (Some node) cs)) as Hs
  end.
  rewrite E2 in Hs. cbn [fst rnd sink] in Hs. specialize (K2 (Hno HL)).
  cbn [rnd] in K2.
  rewrite (bind_ok _ _ _ _ _ E2).
  rewrite (bind_ok _ _ _ _ _ (visit_Paragraph_exit node parent w2 E eq_refl)).
  eexists. split; [reflexivity|]. cbn [rnd sink]. split; [exact K2|].
  rewrite Hs, <- !app_assoc. reflexivity.
Qed.

(** A block quote writes what its children write under the longer prefix. *)
Lemma walk_BlockQuote parent pq ts w :
  Type_ pq = BlockQuote ->
  wellFormed (Tr pq ts) = true ->
  inInt (nestedListLevel (rnd w)) ->
  exists w',
    walkNode parent (Tr pq ts) w = (w', Some true) /\
    rnd w' = rnd w /\
    sink w' =
      sink w
      ++ emitted (walkSiblings (Some (mkNode pq parent)) ts)
           (set_paragraphDecoration
              (paragraphDecoration (rnd w) ++ bytes "> ") (rnd w)).
Proof.
  intros E Hwf Hlvl. set (node := mkNode pq parent).
  pose proof (balanced_children pq parent ts Hwf) as Hch. fold node in Hch.
  apply wellFormed_children in Hwf. destruct Hwf as [_ Hno].
  assert (HL : Type_ pq <> List) by (rewrite E; discriminate).
  rewrite walkNode_eq. cbv zeta. fold node.
  rewrite (bind_ok _ _ _ _ _ (visit_BlockQuote_enter node w E)), E.
  cbn [isContainer].
  match goal with |- context [bind (walkSiblings _ _) _ ?w1] =>
    destruct (siblings_balanced node ts Hch w1) as (w2 & E2 & _ & K2);
      [exact Hlvl | left; auto |];
    pose proof (sink_framed _ w1 (framed_walkSiblings (Some node) ts)) as Hs
  end.
  rewrite E2 in Hs. cbn [fst rnd sink] in Hs. specialize (K2 (Hno HL)).
  cbn [rnd] in K2.
  rewrite (bind_ok _ _ _ _ _ E2).
  erewrite bind_ok.
  2:{ apply (visit_BlockQuote_exit node w2 (paragraphDecoration (rnd w))
               ">"%byte " "%byte E).
      rewrite K2. reflexivity. }
  eexists. split; [reflexivity|]. cbn [rnd sink]. split; [|exact Hs].
  rewrite K2. clear. destruct (rnd w). reflexivity.
Qed.

Lemma listFree_wellFormed t :
  listFree t = true -> wellFormed t = true /\ noItem t.
Proof.
  induction t as [p children IH] using Tree_ind.
  rewrite Forall_forall in IH. cbn [listFree wellFormed]. intros H.
  apply andb_true_iff in H. destruct H as [H Hc].
  apply andb_true_iff in H. destruct H as [_ Hi].
  apply negb_true_iff in Hi. rewrite forallb_forall in Hc. split.
  - apply andb_true_intro.
    split; apply forallb_forall; intros c Hin;
      destruct (IH c Hin (Hc c Hin)) as [Hw Hn]; [|exact Hw].
    unfold noItem in Hn. unfold ofKind at 1.
    destruct NodeType_eq_dec; [contradiction | reflexivity].
  - unfold noItem. cbn. intros E. apply (proj2 (ofKind_true Item p)) in E.
    congruence.
Qed.

Section FlatList.
Variables (listNode : Node) (pd : list byte) (below : list Z).
Hypothesis list_ordered : ordered listNode = true.

Lemma walk_flat_item item c s l :
  flatItem item = true ->
  inInt (c + 1) ->
  exists w',
    walkNode (Some listNode) item (mkWorld (mkRenderer pd 1 [] (below ++ [c])) s l)
    = (w', Some true) /\
    rnd w' = mkRenderer pd 1 [] (below ++ [c + 1]) /\
    sink w' = s ++ numbered ownDelimiter listNode pd below (c + 1) [item].
Proof.
  destruct item as [ip cs]. unfold flatItem. cbn [rootPayload childrenOf].
  rewrite andb_true_iff, ofKind_true. intros [EI Hfree] Hc.
  set (node := mkNode ip (Some listNode)).
  assert (Hch : Forall (balancedFrom node) cs /\ Forall noItem cs).
  { rewrite forallb_forall in Hfree. rewrite !Forall_forall.
    split; intros t Ht; destruct (listFree_wellFormed t (Hfree t Ht));
      [now apply walkNode_balanced | assumption]. }
  destruct Hch as [Hch Hno].
  rewrite walkNode_eq. cbv zeta. fold node.
  rewrite (bind_ok _ _ _ _ _
             (visit_Item_enter_ordered node listNode pd 1 [] below c s l
                EI eq_refl list_ordered)), EI.
  rewrite (wrapInt_small _ Hc). cbn [isContainer].
  match goal with |- context [bind (walkSiblings _ _) _ ?w1] =>
    destruct (siblings_balanced node cs Hch w1) as (w2 & E2 & _ & K2);
      [cbn; unfold inInt, minInt, maxInt; lia | left; auto |];
    pose proof (sink_framed _ w1 (framed_walkSiblings (Some node) cs)) as Hs
  end.
  rewrite E2 in Hs. cbn [fst rnd sink] in Hs. specialize (K2 Hno).
  cbn [rnd] in K2.
  rewrite (bind_ok _ _ _ _ _ E2).
  rewrite (bind_ok _ _ _ _ _ (visit_Item_exit node w2 EI)).
  exists w2. split; [reflexivity|]. split; [exact K2|].
  rewrite Hs. cbn [numbered rootPayload childrenOf app]. fold node.
  unfold ownDelimiter. rewrite app_nil_r, <- !app_assoc. reflexivity.
Qed.

Lemma numbered_cons delimiterOf i item rest :
  numbered delimiterOf listNode pd below i (item :: rest) =
  numbered delimiterOf listNode pd below i [item]
  ++ numbered delimiterOf listNode pd below (i + 1) rest.
Proof. cbn [numbered]. rewrite <- !app_assoc. reflexivity. Qed.

Lemma walk_flat_items items :
  forallb flatItem items = true ->
  forall c s l,
    0 <= c ->
    c + len items <= maxInt ->
    exists w',
      walkSiblings (Some listNode) items
        (mkWorld (mkRenderer pd 1 [] (below ++ [c])) s l)
      = (w', Some true) /\
      rnd w' = mkRenderer pd 1 [] (below ++ [c + len items]) /\
      sink w' = s ++ numbered ownDelimiter listNode pd below (c + 1) items.
Proof.
  induction items as [|item items IH]; intros Hflat c s l Hc Hmax.
  - eexists. rewrite walkSiblings_nil. cbn.
    rewrite Z.add_0_r, app_nil_r. auto.
  - cbn [forallb] in Hflat. apply andb_true_iff in Hflat.
    destruct Hflat as [Hitem Hrest].
    assert (Hlen : len (item :: items) = 1 + len items)
      by (unfold len; cbn [length]; lia).
    rewrite Hlen in *.
    assert (Hpos : 0 <= len items) by (unfold len; lia).
    destruct (walk_flat_item item c s l Hitem) as (w1 & E1 & R1 & S1).
    { unfold inInt, minInt, maxInt in *. lia. }
    destruct w1 as [r1 s1 l1]. cbn [rnd sink] in R1, S1. subst r1.
    destruct (IH Hrest (c + 1) s1 l1 ltac:(lia) ltac:(lia))
      as (w2 & E2 & R2 & S2).
    subst s1.
    exists w2. rewrite walkSiblings_cons, (bind_ok _ _ _ _ _ E1).
    split; [exact E2|]. split.
    + rewrite R2. do 3 f_equal. lia.
    + rewrite S2, (numbered_cons ownDelimiter (c + 1) item items).
      rewrite <- app_assoc. reflexivity.
Qed.
End FlatList.

(** * The claims *)

(** ** C1: nesting balance *)

(** C1 (nesting balance).  A walk of a document by a fresh renderer that
    returns leaves the renderer at its initial value: no quote prefix,
    nesting level 0, no indentation, no counter; this holds for every tree.
    When the document is well formed the walk does return. *)
Theorem nesting_balance (ast : Tree) :
  Type_ (rootPayload ast) = Document ->
  (forall w' b,
     Render ast = (w', Some b) ->
     b = true /\ rnd w' = mkRenderer [] 0 [] []) /\
  (wellFormed ast = true ->
   exists w', Render ast = (w', Some true) /\ rnd w' = mkRenderer [] 0 [] []).
Proof.
  intros HD. split.
  - intros w' b Hrun.
    destruct (walkNode_preserved ast None freshWorld w' b) as [-> S];
      [cbn; unfold inInt, minInt, maxInt; lia | exact Hrun |].
    split; [reflexivity|].
    destruct S as (Hp & Hl & Hn & _ & Hc). destruct (rnd w') as [pd lvl nld cs].
    cbn in Hp, Hl, Hn, Hc. subst pd lvl nld.
    destruct cs; [reflexivity | discriminate].
  - destruct ast as [p children]. cbn [rootPayload] in HD. intros Hwf.
    destruct (walk_Document_balanced p children freshWorld HD Hwf)
      as (w' & E & R).
    { cbn. unfold inInt, minInt, maxInt. lia. }
    exists w'. split; [exact E | exact R].
Qed.

Lemma nesting_balance_witness :
  (forall w' b,
     Render exampleDocument = (w', Some b) ->
     b = true /\ rnd w' = mkRenderer [] 0 [] []) /\
  (exists w',
     Render exampleDocument = (w', Some true) /\
     rnd w' = mkRenderer [] 0 [] []).
Proof.
  destruct (nesting_balance exampleDocument eq_refl) as [Hany Hwf].
  split; [exact Hany | apply Hwf; reflexivity].
Defined.

(** ** C2: the newlines that close a paragraph *)

(** C2 (paragraph exit).  Leaving a paragraph writes one newline, and a
    second one unless the paragraph's parent is a block quote or its
    grandparent is a tight list; nothing else changes and the walk goes on.
    In particular the paragraph under a tight list is closed by exactly one
    newline and the one under a list that is not tight by two. *)
Theorem paragraph_exit_newlines (node p : Node) (w : World) :
  typeOf node = Paragraph ->
  Parent node = Some p ->
  RenderNode node false w =
    (mkWorld (rnd w)
       (sink w ++ newline ++ (if secondNewlineSuppressed p then [] else newline))
       (logged w),
     Some GoToNext) /\
  (forall g, Parent p = Some g -> typeOf g = List ->
     sink (fst (RenderNode node false w)) =
       if Tight (listData (payload g)) then sink w ++ newline
       else if isType p BlockQuote then sink w ++ newline
       else sink w ++ newline ++ newline).
Proof.
  intros E Hp. pose proof (visit_Paragraph_exit node p w E Hp) as Hrun.
  split; [exact Hrun|].
  intros g Hg Eg. rewrite Hrun. cbn [fst sink].
  unfold secondNewlineSuppressed. rewrite Hg.
  unfold isType at 2. rewrite Eg.
  destruct (NodeType_eq_dec List List) as [_|N]; [|contradiction].
  cbn [andb]. destruct (Tight (listData (payload g))).
  - rewrite orb_true_r. now rewrite app_nil_r.
  - rewrite orb_false_r. destruct (isType p BlockQuote); [now rewrite app_nil_r|reflexivity].
Qed.

Lemma paragraph_exit_newlines_witness :
  RenderNode (paragraphIn (itemIn tightList)) false freshWorld =
    (mkWorld NewRenderer newline [], Some GoToNext) /\
  (forall g, Parent (itemIn tightList) = Some g -> typeOf g = List ->
     sink (fst (RenderNode (paragraphIn (itemIn tightList)) false freshWorld)) =
       if Tight (listData (payload g)) then sink freshWorld ++ newline
       else if isType (itemIn tightList) BlockQuote then sink freshWorld ++ newline
       else sink freshWorld ++ newline ++ newline).
Proof.
  apply (paragraph_exit_newlines (paragraphIn (itemIn tightList))
           (itemIn tightList) freshWorld); reflexivity.
Defined.

(** ** C3: unsupported and unknown kinds *)

(** C3 (unsupported and unknown kinds).  A visit of a soft break, of an
    HTML block or span, of a table or one of its parts, or of a node of a
    kind outside Blackfriday's list writes nothing, logs one line, leaves the
    renderer alone and answers [SkipChildren].  In a walk such a node is
    visited once and its children never; the walk goes on, and apart from
    that one log line the siblings before and after it are rendered as if
    the node were not there. *)
Theorem unsupported_kinds_skipped (parent : option Node) (p : Payload)
    (children : list Tree) :
  unsupported (Type_ p) = true ->
  exists line,
    (forall entering w,
       RenderNode (mkNode p parent) entering w =
         (mkWorld (rnd w) (sink w) (logged w ++ [line]), Some SkipChildren)) /\
    (forall w,
       walkNode parent (Tr p children) w =
         (mkWorld (rnd w) (sink w) (logged w ++ [line]), Some true)) /\
    (forall before after w,
       let present := walkSiblings parent (before ++ Tr p children :: after) w in
       let absent := walkSiblings parent (before ++ after) w in
       snd present = snd absent /\
       rnd (fst present) = rnd (fst absent) /\
       sink (fst present) = sink (fst absent) /\
       (snd (walkSiblings parent before w) = Some true ->
        length (logged (fst present)) = S (length (logged (fst absent))))).
Proof.
  intros H.
  destruct (visit_unsupported (mkNode p parent) H) as [line Hv].
  assert (Hw : forall w, walkNode parent (Tr p children) w =
                 (mkWorld (rnd w) (sink w) (logged w ++ [line]), Some true)).
  { intros w. rewrite walkNode_eq. cbv zeta.
    rewrite (bind_ok _ _ _ _ _ (Hv true w)). reflexivity. }
  exists line. split; [exact Hv|]. split; [exact Hw|].
  intros before after w. cbv zeta. rewrite !walkSiblings_app.
  destruct (walkSiblings parent before w) as [w1 [[|]|]]; cbn [snd fst];
    try (repeat split; [reflexivity .. | discriminate]).
  rewrite walkSiblings_cons, (bind_ok _ _ _ _ _ (Hw w1)).
  rewrite (framed_walkSiblings parent after (mkWorld _ _ _)).
  rewrite (framed_walkSiblings parent after w1).
  unfold extend. cbn [fst snd rnd sink logged].
  repeat split. intros _. rewrite !length_app. cbn [length]. lia.
Qed.

Lemma unsupported_kinds_skipped_witness :
  exists line,
    RenderNode (mkNode (plain Table) (Some documentNode)) true freshWorld =
      (mkWorld NewRenderer [] [line], Some SkipChildren) /\
    sink (fst (walkSiblings (Some documentNode) tableDocument freshWorld)) =
    sink (fst (walkSiblings (Some documentNode)
                 [paragraphOf "before"; paragraphOf "after"] freshWorld)).
Proof.
  destruct (unsupported_kinds_skipped (Some documentNode) (plain Table)
              [Tr (plain TableRow) [Tr (textP (bytes "cell")) []]] eq_refl)
    as (line & Hv & _ & Hs).
  exists line. split; [apply Hv|].
  apply (Hs [paragraphOf "before"] [paragraphOf "after"] freshWorld).
Defined.

(** ** C4: items of definition lists *)

(** C4 (code defect).  Entering the term item of a definition list, as the
    parser builds it, logs nothing, writes the item's bullet and a space and
    answers [GoToNext], and the walk goes on to write the item's content.
    The diagnostic hangs on the term flag of the parent list, which the
    parser sets on the items only: under a parent that carries the flag the
    same visit logs the line and writes no marker, still answering
    [GoToNext]. *)
Theorem definition_list_item_not_flagged :
  RenderNode (mkNode definitionTermP (Some definitionList)) true insideOneList =
    (mkWorld (rnd insideOneList) (bytes "* ") [], Some GoToNext) /\
  Render definitionDocument =
    (mkWorld NewRenderer (bytes "* x" ++ newline ++ newline) [], Some true) /\
  RenderNode (mkNode definitionTermP (Some termList)) true insideOneList =
    (mkWorld (rnd insideOneList) [] [DefinitionListsNotImplemented],
     Some GoToNext).
Proof. repeat split. Qed.

(** ** C5: the markers of an ordered list *)

(** C5 (ordered list markers).  The walk of an ordered list that is not
    nested and whose items hold no list writes, for the items in order, the
    numbers 1, 2, ..., N, each followed by the list's delimiter character,
    which Blackfriday records on every item of the list and the renderer
    reads there, a space and what the item's children write; a newline ends
    the list, and the renderer is left as it was found. *)
Theorem ordered_list_markers (parent : option Node) (lp : Payload)
    (items : list Tree) (w : World) :
  Type_ lp = List ->
  ordered (mkNode lp parent) = true ->
  forallb flatItem items = true ->
  nestedListLevel (rnd w) = 0 ->
  nestedListDecoration (rnd w) = [] ->
  len items <= maxInt ->
  exists w',
    walkNode parent (Tr lp items) w = (w', Some true) /\
    rnd w' = rnd w /\
    sink w' =
      sink w
      ++ numbered ownDelimiter (mkNode lp parent)
           (paragraphDecoration (rnd w)) (orderedListCounters (rnd w)) 1 items
      ++ newline.
Proof.
  intros EL Ho Hflat Hlvl Hnld Hmax.
  destruct w as [[pd lvl nld cs] s l]. cbn in Hlvl, Hnld. subst lvl nld.
  set (node := mkNode lp parent).
  rewrite walkNode_eq. cbv zeta. fold node.
  rewrite (bind_ok _ _ _ _ _ (visit_List_enter node _ EL)), EL.
  cbn [isContainer rnd sink logged].
  change (enterList (mkRenderer pd 0 [] cs))
    with (mkRenderer pd 1 [] (cs ++ [0])).
  destruct (walk_flat_items node pd cs Ho items Hflat 0 s l)
    as (w2 & E2 & R2 & S2); [lia | lia |].
  rewrite (bind_ok _ _ _ _ _ E2).
  destruct w2 as [r2 s2 l2]. cbn [rnd sink] in R2, S2. subst r2 s2.
  rewrite (bind_ok _ _ _ _ _
             (visit_List_exit_outer node pd 1 [] cs _ _ l2 EL ltac:(lia))).
  eexists. split; [reflexivity|]. cbn [rnd sink paragraphDecoration
                                       orderedListCounters].
  split; [reflexivity|]. rewrite <- app_assoc. reflexivity.
Qed.

Lemma ordered_list_markers_witness :
  exists w',
    walkNode (Some documentNode) orderedExample freshWorld = (w', Some true) /\
    rnd w' = rnd freshWorld /\
    sink w' =
      sink freshWorld
      ++ (bytes "1. x" ++ newline ++ bytes "2. y" ++ newline)
      ++ newline.
Proof.
  apply (ordered_list_markers (Some documentNode) orderedListP
           [orderedItem "x"; orderedItem "y"] freshWorld); try reflexivity.
  unfold len, maxInt. cbn. lia.
Defined.

(** ** C6: the counter stack *)

(** C6, as stated, fails: an item of an unordered list leaves the innermost
    counter as it is. *)
Lemma unordered_item_keeps_counter :
  orderedListCounters
    (rnd (fst (RenderNode (itemIn tightList) true insideOneList))) = [0] /\
  orderedListCounters
    (rnd (fst (RenderNode (itemIn tightList) true insideOneList))) <> [0 + 1].
Proof. split; vm_compute; [reflexivity | discriminate]. Qed.

(** C6 (amended).  Entering a list item increments the innermost counter
    once when the item's parent is an ordered list and leaves it unchanged
    otherwise.  The stack is as long as [nestedListLevel] says: this holds
    for a fresh renderer and after every visit that returns. *)
Theorem counters_track_ordered_items :
  (forall node p pd lvl nld cs c s l,
     typeOf node = Item ->
     Parent node = Some p ->
     exists w',
       RenderNode node true (mkWorld (mkRenderer pd lvl nld (cs ++ [c])) s l)
       = (w', Some GoToNext) /\
       orderedListCounters (rnd w') =
         cs ++ [if ordered p then wrapInt (c + 1) else c]) /\
  len (orderedListCounters NewRenderer) = nestedListLevel NewRenderer /\
  (forall node entering w w' status,
     len (orderedListCounters (rnd w)) = nestedListLevel (rnd w) ->
     len (orderedListCounters (rnd w)) < maxInt ->
     RenderNode node entering w = (w', Some status) ->
     len (orderedListCounters (rnd w')) = nestedListLevel (rnd w')).
Proof.
  split; [|split; [reflexivity|]].
  - intros node p pd lvl nld cs c s l E Hp.
    destruct (ordered p) eqn:Ho; [|destruct (term p) eqn:Ht].
    + rewrite (visit_Item_enter_ordered node p _ _ _ _ _ _ _ E Hp Ho).
      eexists. split; reflexivity.
    + rewrite (visit_Item_enter_term node p _ E Hp Ho Ht).
      eexists. split; reflexivity.
    + rewrite (visit_Item_enter_bullet node p _ E Hp Ho Ht).
      eexists. split; reflexivity.
  - intros node entering w w' status Hinv Hmax H.
    assert (Hpos : 0 <= len (orderedListCounters (rnd w))) by (unfold len; lia).
    destruct (NodeType_eq_dec (typeOf node) List) as [EL|EL].
    { destruct entering.
      - rewrite (visit_List_enter node w EL) in H. inversion H; subst.
        cbn. unfold len in *. rewrite length_app. cbn [length].
        rewrite <- Hinv, wrapInt_small; [lia|].
        unfold inInt, minInt, maxInt in *. lia.
      - destruct (visit_done_List_exit node w w' status H EL)
          as ([c Hc] & Hl & _).
        rewrite Hl, <- Hinv, Hc. unfold len in *.
        rewrite Hc in Hmax. rewrite length_app in *. cbn [length] in *.
        rewrite wrapInt_small; [lia|].
        unfold inInt, minInt, maxInt in *. lia. }
    destruct (NodeType_eq_dec (typeOf node) BlockQuote) as [EQ|EQ].
    { destruct entering.
      - rewrite (visit_BlockQuote_enter node w EQ) in H. inversion H; subst.
        exact Hinv.
      - destruct (visit_done_BlockQuote_exit node w w' status H EQ)
          as (a & b & _ & R).
        rewrite R. exact Hinv. }
    destruct (NodeType_eq_dec (typeOf node) Item) as [EI|EI].
    { destruct entering.
      - destruct (visit_done_Item_enter node w w' status H EI) as (p & _ & R).
        destruct (ordered p).
        + destruct R as (cs & c & Hc & R). rewrite R. cbn.
          rewrite <- Hinv, Hc. unfold len. rewrite !length_app. reflexivity.
        + rewrite R. exact Hinv.
      - rewrite (visit_Item_exit node w EI) in H. inversion H; subst.
        exact Hinv. }
    rewrite (visit_done_plain node entering w w' status H); auto.
    intros; contradiction.
Qed.

Lemma counters_track_ordered_items_witness :
  (exists w',
     RenderNode (itemIn termAndOrderedList) true insideOneList
     = (w', Some GoToNext) /\
     orderedListCounters (rnd w') =
       [] ++ [if ordered termAndOrderedList then wrapInt (0 + 1) else 0]) /\
  len (orderedListCounters
         (rnd (fst (RenderNode tightList true insideOneList)))) =
  nestedListLevel (rnd (fst (RenderNode tightList true insideOneList))).
Proof.
  destruct counters_track_ordered_items as (Hitem & _ & Hinv). split.
  - apply (Hitem (itemIn termAndOrderedList) termAndOrderedList
             [] 1 [] [] 0 [] []); reflexivity.
  - apply (Hinv tightList true insideOneList _ GoToNext);
      [reflexivity | reflexivity | reflexivity].
Defined.

(** ** C7: quoted paragraphs *)

(** C7, as stated, fails: the second line of a quoted paragraph is written
    without the prefix. *)
Lemma quote_prefix_not_on_every_line :
  sink (fst (Render quotedTwoLines)) =
    bytes "> a" ++ newline ++ bytes "b" ++ newline /\
  everyLinePrefixed (bytes "> ") (sink (fst (Render quotedTwoLines))) = false /\
  sink (fst (Render quotedHardbreak)) =
    bytes "> a  " ++ newline ++ bytes "b" ++ newline /\
  everyLinePrefixed (bytes "> ") (sink (fst (Render quotedHardbreak))) = false.
Proof. repeat split. Qed.

(** C7 (amended).  The quote prefix is written once, when the paragraph is
    entered: a paragraph inside one block quote writes "> ", what its
    children write and a newline; inside two block quotes it writes "> > ",
    what its children write and a newline.  Lines that the children start
    themselves get no prefix. *)
Theorem quote_prefix_written_once (parent : option Node) (q1 q2 pp : Payload)
    (cs : list Tree) (w : World) :
  Type_ q1 = BlockQuote ->
  Type_ q2 = BlockQuote ->
  Type_ pp = Paragraph ->
  wellFormed (Tr pp cs) = true ->
  paragraphDecoration (rnd w) = [] ->
  inInt (nestedListLevel (rnd w)) ->
  let quote1 := mkNode q1 parent in
  let quote2 := mkNode q2 (Some quote1) in
  (exists w',
     walkNode parent (Tr q1 [Tr pp cs]) w = (w', Some true) /\
     rnd w' = rnd w /\
     sink w' =
       sink w ++ bytes "> "
       ++ emitted (walkSiblings (Some (mkNode pp (Some quote1))) cs)
            (set_paragraphDecoration (bytes "> ") (rnd w))
       ++ newline) /\
  (exists w',
     walkNode parent (Tr q1 [Tr q2 [Tr pp cs]]) w = (w', Some true) /\
     rnd w' = rnd w /\
     sink w' =
       sink w ++ bytes "> > "
       ++ emitted (walkSiblings (Some (mkNode pp (Some quote2))) cs)
            (set_paragraphDecoration (bytes "> > ") (rnd w))
       ++ newline).
Proof.
  intros E1 E2 EP Hwf Hpd Hlvl quote1 quote2.
  assert (HnP : Type_ (rootPayload (Tr pp cs)) <> Item)
    by (cbn; rewrite EP; discriminate).
  assert (Hinner : forall q r,
            typeOf q = BlockQuote ->
            inInt (nestedListLevel r) ->
            emitted (walkSiblings (Some q) [Tr pp cs]) r =
              paragraphDecoration r
              ++ emitted (walkSiblings (Some (mkNode pp (Some q))) cs) r
              ++ newline).
  { intros q r Eq Hr. rewrite emitted_single. unfold emitted at 1.
    destruct (walk_Paragraph q pp cs (mkWorld r [] []) EP Hwf Hr)
      as (w1 & Ew & _ & Hs).
    rewrite Ew. cbn [fst]. rewrite Hs. cbn [rnd sink app].
    unfold secondNewlineSuppressed. rewrite (isType_true q BlockQuote Eq).
    cbn [orb]. now rewrite app_nil_r. }
  split.
  - destruct (walk_BlockQuote parent q1 [Tr pp cs] w E1
                (wellFormed_single q1 _ HnP Hwf) Hlvl) as (w' & Ew & R & Hs).
    exists w'. split; [exact Ew|]. split; [exact R|].
    rewrite Hs, Hpd. cbn [app]. rewrite Hinner; [reflexivity | exact E1 | exact Hlvl].
  - assert (Hwf2 : wellFormed (Tr q2 [Tr pp cs]) = true)
      by (apply wellFormed_single; assumption).
    assert (HnQ : Type_ (rootPayload (Tr q2 [Tr pp cs])) <> Item)
      by (cbn; rewrite E2; discriminate).
    destruct (walk_BlockQuote parent q1 [Tr q2 [Tr pp cs]] w E1
                (wellFormed_single q1 _ HnQ Hwf2) Hlvl) as (w' & Ew & R & Hs).
    exists w'. split; [exact Ew|]. split; [exact R|].
    rewrite Hs, Hpd. cbn [app]. rewrite emitted_single. unfold emitted at 1.
    destruct (walk_BlockQuote (Some quote1) q2 [Tr pp cs]
                (mkWorld (set_paragraphDecoration (bytes "> ") (rnd w)) [] [])
                E2 Hwf2 Hlvl) as (w2 & Ew2 & _ & Hs2).
    fold quote1. rewrite Ew2. cbn [fst]. rewrite Hs2. cbn [rnd sink app].
    fold quote2. rewrite Hinner; [reflexivity | exact E2 | exact Hlvl].
Qed.

Lemma quote_prefix_written_once_witness :
  (exists w',
     walkNode (Some documentNode)
       (Tr (plain BlockQuote) [paragraphOf "a"]) freshWorld = (w', Some true) /\
     rnd w' = rnd freshWorld /\
     sink w' = sink freshWorld ++ bytes "> " ++ bytes "a" ++ newline) /\
  (exists w',
     walkNode (Some documentNode)
       (Tr (plain BlockQuote) [Tr (plain BlockQuote) [paragraphOf "a"]])
       freshWorld = (w', Some true) /\
     rnd w' = rnd freshWorld /\
     sink w' = sink freshWorld ++ bytes "> > " ++ bytes "a" ++ newline).
Proof.
  apply (quote_prefix_written_once (Some documentNode) (plain BlockQuote)
           (plain BlockQuote) (plain Paragraph) [Tr (textP (bytes "a")) []]
           freshWorld); try reflexivity.
  cbn. unfold inInt, minInt, maxInt. lia.
Defined.

(** ** C8: leaf kinds *)

(** C8, as stated, fails: the visit of a text node does not answer
    [SkipChildren]. *)
Lemma text_visit_not_skip :
  snd (RenderNode (mkNode (textP (bytes "a")) None) true freshWorld)
  <> Some SkipChildren.
Proof. cbn. discriminate. Qed.

(** C8 (amended).  A visit of a horizontal rule, inline code, text, code
    block or hard break answers [GoToNext] and leaves the renderer alone.
    The traversal does not reach the children of such a node because these
    kinds are not containers: the node is visited once, whatever hangs below
    it. *)
Theorem leaf_kinds_go_to_next (parent : option Node) (p : Payload)
    (children : list Tree) (entering : bool) (w : World) :
  leafKind (Type_ p) = true ->
  (exists w', RenderNode (mkNode p parent) entering w = (w', Some GoToNext) /\
              rnd w' = rnd w) /\
  walkNode parent (Tr p children) w =
    (fst (RenderNode (mkNode p parent) true w), Some true).
Proof.
  intros H. rewrite walkNode_eq. unfold RenderNode, typeOf. cbn [payload].
  destruct (Type_ p); try discriminate H;
    (split; [eexists; split; reflexivity | reflexivity]).
Qed.

Lemma leaf_kinds_go_to_next_witness :
  (exists w', RenderNode (mkNode (textP (bytes "a")) None) true freshWorld
              = (w', Some GoToNext) /\ rnd w' = rnd freshWorld) /\
  walkNode None (Tr (textP (bytes "a")) [paragraphOf "b"]) freshWorld =
    (fst (RenderNode (mkNode (textP (bytes "a")) None) true freshWorld), Some true).
Proof.
  apply (leaf_kinds_go_to_next None (textP (bytes "a")) [paragraphOf "b"] true
           freshWorld).
  reflexivity.
Defined.

(** ** C9: the example of the specification *)

(** C9, as stated, fails: whichever way the items of the example are built,
    the bytes written are not the claimed ones. *)
Lemma example_output_differs :
  sink (fst (Render exampleDocument)) <> claimedExampleOutput /\
  sink (fst (Render exampleDocumentBareItems)) <> claimedExampleOutput /\
  sink (fst (Render exampleDocumentLoose)) <> claimedExampleOutput.
Proof. repeat split; vm_compute; discriminate. Qed.

(** C9 (amended).  The example document is serialized to
    "## Hi\n\na\n\n- x\n- y\n\n": the list is followed by a blank line, the
    newline that closes the last item's paragraph and the newline written on
    leaving the outermost list.  Nothing is logged and the renderer ends in
    its initial state. *)
Theorem example_output :
  Render exampleDocument =
    (mkWorld NewRenderer
       (bytes "## Hi" ++ newline ++ newline ++ bytes "a" ++ newline ++ newline
        ++ bytes "- x" ++ newline ++ bytes "- y" ++ newline ++ newline)
       [],
     Some true).
Proof. vm_compute. reflexivity. Qed.

(** ** C10: nil parents *)

(** C10 (safety of [skipParagraphTags]).  On a node with a parent the
    function returns without a fault; on a node without one it dereferences
    nil, the first test notwithstanding.  Leaving a paragraph therefore
    completes exactly when the paragraph has a parent; without one the
    first newline is written and the visit panics. *)
Theorem skipParagraphTags_needs_parent (node : Node) (w : World) :
  (Parent node <> None ->
     exists b, skipParagraphTags node w = (w, Some b)) /\
  (Parent node = None -> skipParagraphTags node w = (w, None)) /\
  (typeOf node = Paragraph ->
     Parent node <> None ->
     exists w', RenderNode node false w = (w', Some GoToNext)) /\
  (typeOf node = Paragraph ->
     Parent node = None ->
     RenderNode node false w =
       (mkWorld (rnd w) (sink w ++ newline) (logged w), None)).
Proof.
  repeat split.
  - destruct (Parent node) as [p|] eqn:Hp; [|congruence].
    intros _. exists (secondNewlineSuppressed p).
    now apply skipParagraphTags_value.
  - intros Hp. unfold skipParagraphTags. rewrite Hp. reflexivity.
  - intros E Hp. destruct (Parent node) as [p|] eqn:Hp'; [|congruence].
    eexists. apply (visit_Paragraph_exit node p w E Hp').
  - intros E Hp. unfold RenderNode, skipParagraphTags. rewrite E, Hp.
    reflexivity.
Qed.

Lemma skipParagraphTags_needs_parent_witness :
  (exists b, skipParagraphTags (paragraphIn (itemIn tightList)) freshWorld
             = (freshWorld, Some b)) /\
  skipParagraphTags (mkNode (plain Paragraph) None) freshWorld
  = (freshWorld, None).
Proof.
  split.
  - apply (skipParagraphTags_needs_parent (paragraphIn (itemIn tightList))
             freshWorld). discriminate.
  - apply (skipParagraphTags_needs_parent (mkNode (plain Paragraph) None)
             freshWorld). reflexivity.
Defined.

(** * Further properties of the renderer *)

(** ** The directive, the panics and the log of one visit *)

(** X1 (append-only output).  A walk never reads or rewrites what was
    written and logged before it started: the bytes and log lines it adds,
    the renderer it leaves and its result are the same whatever the sink and
    the log held, and they are appended to them. *)
Theorem walk_appends_only (parent : option Node) (t : Tree) (r : Renderer) :
  exists r' out lines res,
    forall s l,
      walkNode parent t (mkWorld r s l) =
        (mkWorld r' (s ++ out) (l ++ lines), res).
Proof.
  destruct (walkNode parent t (mkWorld r [] [])) as [[r' out lines] res] eqn:E.
  exists r', out, lines, res. intros s l.
  rewrite (framed_walkNode t parent (mkWorld r s l)). cbn [rnd].
  rewrite E. reflexivity.
Qed.

(** X2 (the directive depends on the kind alone).  A visit that returns
    answers [SkipChildren] for the unsupported and unknown kinds and
    [GoToNext] for every other kind, on entry and on exit alike; it never
    answers [Terminate]. *)
Theorem directive_by_kind (node : Node) (entering : bool) (w w' : World)
    (status : WalkStatus) :
  RenderNode node entering w = (w', Some status) ->
  status = if unsupported (typeOf node) then SkipChildren else GoToNext.
Proof.
  unfold RenderNode.
  destruct (typeOf node);
    cbv [bind]; repeat
      match goal with
      | |- context [match ?c ?x with _ => _ end] =>
          destruct (c x) as [? [?|]]
      | |- context [match (if ?b then _ else _) ?x with _ => _ end] =>
          destruct (if b then _ else _) as [? [?|]]
      end;
    cbv [ret]; intros H; inversion H; reflexivity.
Qed.

Lemma directive_by_kind_witness :
  GoToNext = if unsupported (typeOf (itemIn tightList)) then SkipChildren
             else GoToNext.
Proof.
  apply (directive_by_kind (itemIn tightList) true insideOneList
           (fst (RenderNode (itemIn tightList) true insideOneList))).
  reflexivity.
Defined.

Lemma len_app_two {A : Type} (d : list A) a b : 2 <= len (d ++ [a; b]).
Proof. unfold len. rewrite length_app. cbn [length]. lia. Qed.

Lemma len_app_one {A : Type} (d : list A) a : 1 <= len (d ++ [a]).
Proof. unfold len. rewrite length_app. cbn [length]. lia. Qed.

Lemma visit_Paragraph_exit_nil node w :
  typeOf node = Paragraph ->
  Parent node = None ->
  RenderNode node false w =
    (mkWorld (rnd w) (sink w ++ newline) (logged w), None).
Proof.
  intros E Hp. unfold RenderNode, skipParagraphTags. rewrite E, Hp.
  reflexivity.
Qed.

Lemma visit_Item_enter_nil node w :
  typeOf node = Item ->
  Parent node = None ->
  RenderNode node true w =
    (mkWorld (rnd w) (sink w ++ nestedListDecoration (rnd w)) (logged w), None).
Proof. intros E Hp. unfold RenderNode. rewrite E, Hp. reflexivity. Qed.

(** X3 (when a visit panics).  A visit returns exactly when [canVisit]
    holds of the node and the renderer: leaving a block quote needs two
    bytes of prefix, leaving a list needs a counter (and two bytes of
    indentation when nested), entering an item needs a parent (and a counter
    when the parent is ordered), leaving a paragraph needs a parent.  Every
    other visit returns. *)
Theorem visit_returns_iff (node : Node) (entering : bool) (w : World) :
  (exists w' status, RenderNode node entering w = (w', Some status)) <->
  canVisit node entering (rnd w) = true.
Proof.
  destruct (NodeType_eq_dec (typeOf node) BlockQuote) as [EQ|EQ].
  { unfold canVisit. rewrite EQ. destruct entering.
    - split; [reflexivity|]. intros _.
      rewrite (visit_BlockQuote_enter node w EQ). eauto.
    - split.
      + intros (w' & st & H).
        destruct (visit_done_BlockQuote_exit node w w' st H EQ)
          as (a & b & -> & _).
        apply Z.leb_le, len_app_two.
      + intros H. apply Z.leb_le in H.
        destruct (split_last_two (paragraphDecoration (rnd w)) ltac:(lia))
          as (a & b & Hs).
        rewrite (visit_BlockQuote_exit node w _ a b EQ Hs). eauto. }
  destruct (NodeType_eq_dec (typeOf node) List) as [EL|EL].
  { unfold canVisit. rewrite EL. destruct entering.
    - split; [reflexivity|]. intros _.
      rewrite (visit_List_enter node w EL). eauto.
    - split.
      + intros (w' & st & H).
        destruct (visit_done_List_exit node w w' st H EL)
          as ([c ->] & _ & _ & Hn).
        apply andb_true_iff. split; [|apply Z.leb_le, len_app_one].
        destruct (1 <? nestedListLevel (rnd w)); [|reflexivity].
        destruct Hn as (a & b & ->). apply Z.leb_le, len_app_two.
      + intros H. apply andb_true_iff in H. destruct H as [Hn Hc].
        apply Z.leb_le in Hc.
        destruct w as [[pd lvl nld cs] s l].
        cbn [rnd nestedListLevel nestedListDecoration orderedListCounters] in *.
        destruct (split_last_one cs ltac:(lia)) as (c & Hcs). rewrite Hcs.
        destruct (Z.ltb_spec 1 lvl) as [Hl|Hl].
        * apply Z.leb_le in Hn.
          destruct (split_last_two nld ltac:(lia)) as (a & b & Hs). rewrite Hs.
          rewrite (visit_List_exit_nested node pd lvl _ a b _ c s l EL Hl).
          eauto.
        * rewrite (visit_List_exit_outer node pd lvl nld _ c s l EL Hl).
          eauto. }
  destruct (NodeType_eq_dec (typeOf node) Item) as [EI|EI].
  { unfold canVisit. rewrite EI. destruct entering.
    - destruct (Parent node) as [p|] eqn:Hp.
      + destruct (ordered p) eqn:Ho.
        * split.
          -- intros (w' & st & H).
             destruct (visit_done_Item_enter node w w' st H EI) as (p' & Hp' & R).
             rewrite Hp in Hp'. inversion Hp'; subst p'. rewrite Ho in R.
             destruct R as (cs & c & -> & _). apply Z.leb_le, len_app_one.
          -- intros H. apply Z.leb_le in H.
             destruct w as [[pd lvl nld cs] s l]. cbn [rnd orderedListCounters] in H.
             destruct (split_last_one cs ltac:(lia)) as (c & Hcs). rewrite Hcs.
             rewrite (visit_Item_enter_ordered node p pd lvl nld _ c s l EI Hp Ho).
             eauto.
        * split; [reflexivity|]. intros _. destruct (term p) eqn:Ht.
          -- rewrite (visit_Item_enter_term node p w EI Hp Ho Ht). eauto.
          -- rewrite (visit_Item_enter_bullet node p w EI Hp Ho Ht). eauto.
      + split; [|discriminate]. intros (w' & st & H).
        rewrite (visit_Item_enter_nil node w EI Hp) in H. discriminate H.
    - split; [reflexivity|]. intros _.
      rewrite (visit_Item_exit node w EI). eauto. }
  destruct (NodeType_eq_dec (typeOf node) Paragraph) as [EP|EP].
  { unfold canVisit. rewrite EP. destruct entering.
    - split; [reflexivity|]. intros _.
      rewrite (visit_Paragraph_enter node w EP). eauto.
    - destruct (Parent node) as [p|] eqn:Hp.
      + split; [reflexivity|]. intros _.
        rewrite (visit_Paragraph_exit node p w EP Hp). eauto.
      + split; [|discriminate]. intros (w' & st & H).
        rewrite (visit_Paragraph_exit_nil node w EP Hp) in H. discriminate H. }
  assert (Hcan : canVisit node entering (rnd w) = true).
  { unfold canVisit. destruct (typeOf node); try contradiction;
      destruct entering; reflexivity. }
  rewrite Hcan. split; [reflexivity|]. intros _.
  destruct (visit_plain node entering w EQ EL) as (w1 & st & H & _).
  - intros E. contradiction.
  - intros E. contradiction.
  - eauto.
Qed.

Lemma visit_log node entering w :
  logged (fst (RenderNode node entering w)) =
  logged w ++ diagnostics node entering.
Proof.
  unfold diagnostics.
  destruct (NodeType_eq_dec (typeOf node) Item) as [EI|EI].
  { rewrite EI. destruct entering.
    - destruct (Parent node) as [p|] eqn:Hp.
      + destruct (ordered p) eqn:Ho; cbn [negb andb].
        * destruct w as [[pd lvl nld cs] s l].
          destruct cs as [|c0 cs0].
          -- unfold RenderNode. rewrite EI, Hp. unfold ordered in Ho.
             cbv [bind load store ret Write deref rnd sink logged
                  nestedListDecoration orderedListCounters].
             rewrite Ho. cbn. now rewrite app_nil_r.
          -- destruct (exists_last (l := c0 :: cs0)) as (cs & c & Hl);
               [discriminate|].
             rewrite Hl.
             rewrite (visit_Item_enter_ordered node p pd lvl nld cs c s l
                        EI Hp Ho).
             cbn. now rewrite app_nil_r.
        * destruct (term p) eqn:Ht.
          -- rewrite (visit_Item_enter_term node p w EI Hp Ho Ht). reflexivity.
          -- rewrite (visit_Item_enter_bullet node p w EI Hp Ho Ht).
             cbn. now rewrite app_nil_r.
      + rewrite (visit_Item_enter_nil node w EI Hp). cbn. now rewrite app_nil_r.
    - rewrite (visit_Item_exit node w EI). cbn. now rewrite app_nil_r. }
  destruct (NodeType_eq_dec (typeOf node) BlockQuote) as [EQ|EQ].
  { rewrite EQ. destruct entering.
    - rewrite (visit_BlockQuote_enter node w EQ). cbn. now rewrite app_nil_r.
    - unfold RenderNode. rewrite EQ. cbv [bind load store ret].
      destruct (sliceTo _ _ w) as [w1 [d|]] eqn:S; unfold sliceTo in S;
        destruct (_ && _) in S; inversion S; subst; cbn; now rewrite app_nil_r. }
  destruct (NodeType_eq_dec (typeOf node) List) as [EL|EL].
  { rewrite EL. destruct entering.
    - rewrite (visit_List_enter node w EL). cbn. now rewrite app_nil_r.
    - unfold RenderNode. rewrite EL. destruct w as [[pd lvl nld cs] s l].
      cbv [bind load store ret rnd sink logged Write set_orderedListCounters
           set_nestedListLevel set_nestedListDecoration paragraphDecoration
           nestedListLevel nestedListDecoration orderedListCounters].
      unfold sliceTo. cbv [ret panic].
      destruct (1 <? lvl);
        repeat match goal with
               | |- context [if ?b then _ else _] => destruct b
               end; cbn; now rewrite app_nil_r. }
  destruct (NodeType_eq_dec (typeOf node) Paragraph) as [EP|EP].
  { rewrite EP. destruct entering.
    - rewrite (visit_Paragraph_enter node w EP). cbn. now rewrite app_nil_r.
    - destruct (Parent node) as [p|] eqn:Hp.
      + rewrite (visit_Paragraph_exit node p w EP Hp). cbn. now rewrite app_nil_r.
      + rewrite (visit_Paragraph_exit_nil node w EP Hp). cbn.
        now rewrite app_nil_r. }
  unfold RenderNode.
  destruct (typeOf node); try contradiction; destruct entering; cbn;
    rewrite ?app_nil_r; reflexivity.
Qed.

Lemma diagnostics_exit node :
  diagnostics node true = [] -> diagnostics node false = [].
Proof. unfold diagnostics. destruct (typeOf node); auto. Qed.

Lemma siblings_log parent ts :
  Forall (fun t => forall w, logged (fst (walkNode parent t w)) = logged w) ts ->
  forall w, logged (fst (walkSiblings parent ts w)) = logged w.
Proof.
  induction 1 as [|t ts Ht _ IH]; intros w; [reflexivity|].
  rewrite walkSiblings_cons. unfold bind. specialize (Ht w).
  destruct (walkNode parent t w) as [w1 [[|]|]]; cbn [fst] in *;
    [rewrite IH | cbn | ]; exact Ht.
Qed.

(** X4 (nothing is logged for supported content).  The walk of a subtree
    that holds no node of an unsupported or unknown kind and no item under a
    list flagged term and not ordered logs nothing, whether it returns or
    panics. *)
Theorem silent_walk_logs_nothing (t : Tree) :
  forall (parent : option Node) (w : World),
    silent parent t = true ->
    logged (fst (walkNode parent t w)) = logged w.
Proof.
  induction t as [p children IH] using Tree_ind. intros parent w Hs.
  cbn [silent] in Hs. apply andb_true_iff in Hs. destruct Hs as [Hd Hc].
  set (node := mkNode p parent) in *.
  assert (Hd1 : diagnostics node true = [])
    by (destruct (diagnostics node true); [reflexivity | discriminate]).
  pose proof (diagnostics_exit node Hd1) as Hd0.
  assert (Hch : Forall (fun t => forall w,
                          logged (fst (walkNode (Some node) t w)) = logged w)
                       children).
  { rewrite forallb_forall in Hc. rewrite Forall_forall in *.
    intros c Hin w'. apply IH; auto. }
  rewrite walkNode_eq. cbv zeta. fold node. unfold bind at 1.
  pose proof (visit_log node true w) as H1. rewrite Hd1, app_nil_r in H1.
  destruct (RenderNode node true w) as [w1 [st|]]; cbn [fst] in H1;
    [|exact H1].
  destruct st; try exact H1.
  destruct (isContainer (Type_ p)); [|exact H1].
  unfold bind at 1.
  pose proof (siblings_log (Some node) children Hch w1) as H2.
  destruct (walkSiblings (Some node) children w1) as [w2 [[|]|]];
    cbn [fst] in H2; try (unfold ret; cbn [fst]; congruence).
  unfold bind.
  pose proof (visit_log node false w2) as H3. rewrite Hd0, app_nil_r in H3.
  destruct (RenderNode node false w2) as [w3 [st'|]]; unfold ret;
    cbn [fst] in *; congruence.
Qed.

Lemma silent_walk_logs_nothing_witness :
  logged (fst (walkNode None exampleDocument freshWorld)) = logged freshWorld.
Proof.
  apply (silent_walk_logs_nothing exampleDocument None freshWorld).
  reflexivity.
Defined.

(** ** The shape of the renderer during a walk *)

Lemma concat_repeat_snoc {A : Type} (x : list A) n :
  concat (repeat x (S n)) = concat (repeat x n) ++ x.
Proof.
  induction n as [|n IH]; cbn [repeat concat] in *.
  - now rewrite app_nil_r.
  - rewrite IH at 1. now rewrite app_assoc.
Qed.

Lemma indentation_succ lvl :
  1 <= lvl -> indentation (lvl + 1) = indentation lvl ++ bytes "  ".
Proof.
  intros H. unfold indentation.
  replace (Z.to_nat (lvl + 1 - 1)) with (S (Z.to_nat (lvl - 1))) by lia.
  apply concat_repeat_snoc.
Qed.

Lemma indentation_low lvl : lvl <= 1 -> indentation lvl = [].
Proof.
  intros H. unfold indentation.
  replace (Z.to_nat (lvl - 1)) with 0%nat by lia. reflexivity.
Qed.

(** X5 (the decorations follow the depth).  A fresh renderer is [shaped],
    and every visit that returns keeps it so: the quote prefix is always a
    run of "> ", the indentation is always two spaces per list level above
    the first, and there is always one counter per open list. *)
Theorem decorations_track_depth :
  shaped NewRenderer /\
  (forall node entering w w' status,
     shaped (rnd w) ->
     len (orderedListCounters (rnd w)) < maxInt ->
     RenderNode node entering w = (w', Some status) ->
     shaped (rnd w')).
Proof.
  split.
  { split; [exists 0%nat; reflexivity | split; reflexivity]. }
  intros node entering w w' status ([q Hq] & Hn & Hc) Hmax H.
  assert (Hpos : 0 <= len (orderedListCounters (rnd w))) by (unfold len; lia).
  destruct (NodeType_eq_dec (typeOf node) BlockQuote) as [EQ|EQ].
  { destruct entering.
    - rewrite (visit_BlockQuote_enter node w EQ) in H. inversion H; subst.
      unfold shaped.
      cbn [rnd paragraphDecoration nestedListLevel nestedListDecoration
           orderedListCounters set_paragraphDecoration].
      split; [|split; assumption].
      exists (S q). rewrite Hq. symmetry. apply concat_repeat_snoc.
    - destruct (visit_done_BlockQuote_exit node w w' status H EQ)
        as (a & b & Hpd & R).
      rewrite R. unfold shaped.
      cbn [rnd paragraphDecoration nestedListLevel nestedListDecoration
           orderedListCounters set_paragraphDecoration].
      split; [|split; assumption].
      destruct q as [|q].
      + rewrite Hq in Hpd. cbn in Hpd.
        destruct (paragraphDecoration (rnd w')); discriminate.
      + exists q. rewrite Hq in Hpd. unfold quotePrefix in Hpd.
        rewrite concat_repeat_snoc in Hpd.
        change (bytes "> ") with [">"%byte; " "%byte] in Hpd at 2.
        symmetry. apply (app_inv_two _ _ _ _ _ _ Hpd). }
  destruct (NodeType_eq_dec (typeOf node) List) as [EL|EL].
  { destruct entering.
    - rewrite (visit_List_enter node w EL) in H. inversion H; subst.
      unfold enterList, shaped.
      cbn [rnd paragraphDecoration nestedListLevel nestedListDecoration
           orderedListCounters].
      assert (Hw : wrapInt (nestedListLevel (rnd w) + 1)
                   = nestedListLevel (rnd w) + 1).
      { apply wrapInt_small. unfold inInt, minInt, maxInt in *. lia. }
      rewrite Hw. split; [exists q; exact Hq|]. split.
      + destruct (Z.ltb_spec 1 (nestedListLevel (rnd w) + 1)).
        * rewrite indentation_succ by lia. now rewrite Hn.
        * rewrite Hn, !indentation_low by lia. reflexivity.
      + unfold len in *. rewrite length_app. cbn [length]. lia.
    - destruct (visit_done_List_exit node w w' status H EL)
        as ([c Hcs] & Hl & Hp & Hd).
      assert (Hlen : len (orderedListCounters (rnd w'))
                     = nestedListLevel (rnd w) - 1).
      { rewrite <- Hc, Hcs. unfold len. rewrite length_app. cbn [length]. lia. }
      assert (Hw : nestedListLevel (rnd w') = nestedListLevel (rnd w) - 1).
      { rewrite Hl. apply wrapInt_small.
        unfold len, inInt, minInt, maxInt in *. lia. }
      split; [exists q; now rewrite Hp|]. split; [|now rewrite Hw].
      rewrite Hw. destruct (Z.ltb_spec 1 (nestedListLevel (rnd w))) as [Hlt|Hge].
      + destruct Hd as (a & b & Hd). rewrite Hn in Hd.
        replace (nestedListLevel (rnd w))
          with (nestedListLevel (rnd w) - 1 + 1) in Hd at 1 by lia.
        rewrite indentation_succ in Hd by lia.
        change (bytes "  ") with [" "%byte; " "%byte] in Hd.
        symmetry. apply (app_inv_two _ _ _ _ _ _ Hd).
      + rewrite Hd, Hn, !indentation_low by lia. reflexivity. }
  destruct (NodeType_eq_dec (typeOf node) Item) as [EI|EI].
  { destruct entering.
    - destruct (visit_done_Item_enter node w w' status H EI) as (p & _ & R).
      destruct (ordered p).
      + destruct R as (cs & c & Hcs & R). rewrite R. unfold shaped.
        cbn [rnd paragraphDecoration nestedListLevel nestedListDecoration
             orderedListCounters set_orderedListCounters].
        split; [exists q; exact Hq|]. split; [exact Hn|].
        rewrite <- Hc, Hcs. unfold len. rewrite !length_app. reflexivity.
      + rewrite R. repeat split; eauto.
    - rewrite (visit_Item_exit node w EI) in H. inversion H; subst.
      repeat split; eauto. }
  rewrite (visit_done_plain node entering w w' status H EQ EL).
  - repeat split; eauto.
  - intros; contradiction.
Qed.

Lemma decorations_track_depth_witness :
  shaped (rnd (fst (RenderNode tightList true insideOneList))).
Proof.
  destruct decorations_track_depth as [_ Hstep].
  apply (Hstep tightList true insideOneList _ GoToNext).
  - split; [exists 0%nat; reflexivity | split; reflexivity].
  - reflexivity.
  - reflexivity.
Defined.

(** ** Lists at any depth *)

Section Items.
Variables (listNode : Node) (pd : list byte) (lvl : Z) (indent : list byte)
  (below : list Z).
Hypothesis lvl_inInt : inInt lvl.

Lemma walk_item item c s l :
  properItem item = true ->
  inInt (c + 1) ->
  exists w',
    walkNode (Some listNode) item
      (mkWorld (mkRenderer pd lvl indent (below ++ [c])) s l)
    = (w', Some true) /\
    rnd w' = mkRenderer pd lvl indent (below ++ [nextCounter listNode c]) /\
    sink w' = s ++ itemsOutput listNode pd lvl indent below c [item].
Proof.
  destruct item as [ip cs]. unfold properItem. cbn [rootPayload].
  rewrite andb_true_iff, ofKind_true. intros [EI Hwf] Hc.
  set (node := mkNode ip (Some listNode)).
  pose proof (balanced_children ip (Some listNode) cs Hwf) as Hch.
  fold node in Hch.
  apply wellFormed_children in Hwf. destruct Hwf as [_ Hno].
  assert (HL : Type_ ip <> List) by (rewrite EI; discriminate).
  specialize (Hno HL).
  assert (Henter :
    RenderNode node true (mkWorld (mkRenderer pd lvl indent (below ++ [c])) s l)
    = (mkWorld (mkRenderer pd lvl indent (below ++ [nextCounter listNode c]))
         (s ++ indent ++ itemMarker listNode (nextCounter listNode c) ip)
         (l ++ diagnostics node true),
       Some GoToNext)).
  { unfold itemMarker, nextCounter, diagnostics.
    change (typeOf node) with (Type_ ip). rewrite EI. cbn [Parent node].
    destruct (ordered listNode) eqn:Ho; cbn [negb andb].
    - rewrite (visit_Item_enter_ordered node listNode pd lvl indent below c s l
                 EI eq_refl Ho).
      rewrite (wrapInt_small _ Hc), app_nil_r. reflexivity.
    - destruct (term listNode) eqn:Ht.
      + rewrite (visit_Item_enter_term node listNode _ EI eq_refl Ho Ht).
        cbn [rnd sink logged nestedListDecoration]. now rewrite app_nil_r.
      + rewrite (visit_Item_enter_bullet node listNode _ EI eq_refl Ho Ht).
        cbn [rnd sink logged nestedListDecoration]. now rewrite app_nil_r. }
  rewrite walkNode_eq. cbv zeta. fold node.
  rewrite (bind_ok _ _ _ _ _ Henter), EI. cbn [isContainer].
  match goal with |- context [bind (walkSiblings _ _) _ ?w1] =>
    destruct (siblings_balanced node cs Hch w1) as (w2 & E2 & _ & K2);
      [exact lvl_inInt | left; exact Hno |];
    pose proof (sink_framed _ w1 (framed_walkSiblings (Some node) cs)) as Hs
  end.
  rewrite E2 in Hs. cbn [fst rnd sink] in Hs. specialize (K2 Hno).
  cbn [rnd] in K2.
  rewrite (bind_ok _ _ _ _ _ E2).
  rewrite (bind_ok _ _ _ _ _ (visit_Item_exit node w2 EI)).
  exists w2. split; [reflexivity|]. split; [exact K2|].
  rewrite Hs. cbn [itemsOutput rootPayload childrenOf]. fold node.
  rewrite app_nil_r, <- !app_assoc. reflexivity.
Qed.

Lemma itemsOutput_cons c item rest :
  itemsOutput listNode pd lvl indent below c (item :: rest) =
  itemsOutput listNode pd lvl indent below c [item]
  ++ itemsOutput listNode pd lvl indent below (nextCounter listNode c) rest.
Proof. cbn [itemsOutput]. rewrite <- !app_assoc. reflexivity. Qed.

Lemma walk_items items :
  forallb properItem items = true ->
  forall c s l,
    0 <= c ->
    c + len items <= maxInt ->
    exists w' c',
      walkSiblings (Some listNode) items
        (mkWorld (mkRenderer pd lvl indent (below ++ [c])) s l)
      = (w', Some true) /\
      rnd w' = mkRenderer pd lvl indent (below ++ [c']) /\
      sink w' = s ++ itemsOutput listNode pd lvl indent below c items.
Proof.
  induction items as [|item items IH]; intros Hp c s l Hc Hmax.
  - exists (mkWorld (mkRenderer pd lvl indent (below ++ [c])) s l), c.
    rewrite walkSiblings_nil. cbn. rewrite app_nil_r. auto.
  - cbn [forallb] in Hp. apply andb_true_iff in Hp. destruct Hp as [Hi Hr].
    assert (Hlen : len (item :: items) = 1 + len items)
      by (unfold len; cbn [length]; lia).
    rewrite Hlen in Hmax.
    assert (Hpos : 0 <= len items) by (unfold len; lia).
    destruct (walk_item item c s l Hi) as (w1 & E1 & R1 & S1).
    { unfold inInt, minInt, maxInt in *. lia. }
    destruct w1 as [r1 s1 l1]. cbn [rnd sink] in R1, S1. subst r1.
    assert (Hn : c <= nextCounter listNode c <= c + 1)
      by (unfold nextCounter; destruct (ordered listNode); lia).
    destruct (IH Hr (nextCounter listNode c) s1 l1 ltac:(lia) ltac:(lia))
      as (w2 & c' & E2 & R2 & S2).
    subst s1. exists w2, c'.
    rewrite walkSiblings_cons, (bind_ok _ _ _ _ _ E1).
    split; [exact E2|]. split; [exact R2|].
    rewrite S2, (itemsOutput_cons c item items), <- app_assoc. reflexivity.
Qed.
End Items.

(** X6 (what a list writes).  At any nesting level, and whatever well-formed
    content the items hold (nested lists included), the walk of a list
    returns, restores the renderer and writes its items in order: each is
    the indentation (two more spaces than outside when the list is nested),
    the marker (the next number with the item's delimiter under an ordered
    list, the item's bullet otherwise, nothing under a term list) and what
    the item's children write.  A newline follows the list only when it is
    not nested. *)
Theorem list_output (parent : option Node) (lp : Payload) (items : list Tree)
    (w : World) :
  Type_ lp = List ->
  forallb properItem items = true ->
  0 <= nestedListLevel (rnd w) < maxInt ->
  len items <= maxInt ->
  let nested := 0 <? nestedListLevel (rnd w) in
  let indent :=
    if nested then nestedListDecoration (rnd w) ++ bytes "  "
    else nestedListDecoration (rnd w) in
  exists w',
    walkNode parent (Tr lp items) w = (w', Some true) /\
    rnd w' = rnd w /\
    sink w' =
      sink w
      ++ itemsOutput (mkNode lp parent) (paragraphDecoration (rnd w))
           (nestedListLevel (rnd w) + 1) indent (orderedListCounters (rnd w))
           0 items
      ++ (if nested then [] else newline).
Proof.
  intros EL Hitems Hlvl Hmax nested indent.
  destruct w as [[pd lvl nld cs] s l].
  cbn [rnd sink paragraphDecoration nestedListLevel nestedListDecoration
       orderedListCounters] in *.
  set (node := mkNode lp parent).
  assert (Hw : wrapInt (lvl + 1) = lvl + 1)
    by (apply wrapInt_small; unfold inInt, minInt, maxInt in *; lia).
  assert (Hin : inInt (lvl + 1))
    by (unfold inInt, minInt, maxInt in *; lia).
  assert (Hn : (1 <? lvl + 1) = nested)
    by (unfold nested; destruct (Z.ltb_spec 1 (lvl + 1)),
          (Z.ltb_spec 0 lvl); auto; lia).
  rewrite walkNode_eq. cbv zeta. fold node.
  rewrite (bind_ok _ _ _ _ _ (visit_List_enter node _ EL)), EL.
  cbn [isContainer rnd sink logged]. unfold enterList.
  cbn [paragraphDecoration nestedListLevel nestedListDecoration
       orderedListCounters].
  rewrite Hw, Hn. fold indent.
  destruct (walk_items node pd (lvl + 1) indent cs Hin items Hitems 0 s l)
    as (w2 & c' & E2 & R2 & S2); [lia | lia |].
  rewrite (bind_ok _ _ _ _ _ E2).
  destruct w2 as [r2 s2 l2]. cbn [rnd sink] in R2, S2. subst r2 s2.
  assert (Hback : wrapInt (lvl + 1 - 1) = lvl).
  { replace (lvl + 1 - 1) with lvl by lia.
    apply wrapInt_small. unfold inInt, minInt, maxInt in *. lia. }
  unfold indent. destruct nested eqn:Hnested.
  - change (bytes "  ") with [" "%byte; " "%byte].
    apply Z.ltb_lt in Hn.
    rewrite (bind_ok _ _ _ _ _
               (visit_List_exit_nested node pd (lvl + 1) nld _ _ cs c' _ l2
                  EL Hn)).
    eexists. split; [reflexivity|]. cbn [rnd sink]. rewrite Hback.
    split; [reflexivity|]. now rewrite app_nil_r.
  - apply Z.ltb_ge in Hn.
    rewrite (bind_ok _ _ _ _ _
               (visit_List_exit_outer node pd (lvl + 1) nld cs c' _ l2 EL Hn)).
    eexists. split; [reflexivity|]. cbn [rnd sink]. rewrite Hback.
    split; [reflexivity|]. now rewrite <- app_assoc.
Qed.

Lemma list_output_witness :
  exists w',
    walkNode (Some documentNode) nestedExample freshWorld = (w', Some true) /\
    rnd w' = rnd freshWorld /\
    sink w' =
      sink freshWorld
      ++ (bytes "1. a" ++ newline ++ bytes "  - b" ++ newline
          ++ bytes "2. c" ++ newline)
      ++ newline.
Proof.
  apply (list_output (Some documentNode) orderedListP
           (childrenOf nestedExample) freshWorld); try reflexivity.
  - cbn. unfold maxInt. lia.
  - unfold len, maxInt. cbn. lia.
Defined.

(** ** Subtrees that render the same everywhere *)

Lemma contextFree_kind p children :
  contextFree (Tr p children) = true ->
  Type_ p <> BlockQuote /\ Type_ p <> List /\ Type_ p <> Item /\
  Type_ p <> Paragraph /\ forallb contextFree children = true.
Proof.
  cbn [contextFree]. rewrite !andb_true_iff, !negb_true_iff.
  intros [[[[HQ HL] HI] HP] Hc].
  repeat split; try exact Hc; intros E;
    apply (proj2 (ofKind_true _ p)) in E; congruence.
Qed.

Lemma visit_contextFree p entering :
  Type_ p <> BlockQuote -> Type_ p <> List -> Type_ p <> Item ->
  Type_ p <> Paragraph ->
  exists out lines status,
    status <> Terminate /\
    forall parent r s l,
      RenderNode (mkNode p parent) entering (mkWorld r s l) =
        (mkWorld r (s ++ out) (l ++ lines), Some status).
Proof.
  intros HQ HL HI HP.
  exists (sink (fst (RenderNode (mkNode p None) entering freshWorld))),
         (logged (fst (RenderNode (mkNode p None) entering freshWorld))),
         (match snd (RenderNode (mkNode p None) entering freshWorld) with
          | Some st => st
          | None => GoToNext
          end).
  split.
  - unfold RenderNode, typeOf. cbn [payload].
    destruct (Type_ p); try contradiction; destruct entering; discriminate.
  - intros parent r s l.
    rewrite (framed_RenderNode (mkNode p parent) entering (mkWorld r s l)).
    unfold extend, RenderNode, typeOf. cbn [payload rnd sink logged].
    destruct (Type_ p); try contradiction; destruct entering; reflexivity.
Qed.

Lemma siblings_contextFree ts :
  Forall (fun t => exists out lines, forall parent r s l,
            walkNode parent t (mkWorld r s l) =
              (mkWorld r (s ++ out) (l ++ lines), Some true)) ts ->
  exists out lines, forall parent r s l,
    walkSiblings parent ts (mkWorld r s l) =
      (mkWorld r (s ++ out) (l ++ lines), Some true).
Proof.
  induction 1 as [|t ts (o1 & l1 & H1) _ (o2 & l2 & H2)].
  - exists [], []. intros. rewrite walkSiblings_nil, !app_nil_r. reflexivity.
  - exists (o1 ++ o2), (l1 ++ l2). intros parent r s l.
    rewrite walkSiblings_cons, (bind_ok _ _ _ _ _ (H1 parent r s l)), H2.
    now rewrite !app_assoc.
Qed.

Lemma walk_contextFree t :
  contextFree t = true ->
  exists out lines, forall parent r s l,
    walkNode parent t (mkWorld r s l) =
      (mkWorld r (s ++ out) (l ++ lines), Some true).
Proof.
  induction t as [p children IH] using Tree_ind. intros Hcf.
  destruct (contextFree_kind p children Hcf) as (HQ & HL & HI & HP & Hc).
  destruct (visit_contextFree p true HQ HL HI HP) as (a & la & st & Hst & Ha).
  destruct (visit_contextFree p false HQ HL HI HP) as (b & lb & st' & Hst' & Hb).
  assert (Hch : exists out lines, forall parent r s l,
             walkSiblings parent children (mkWorld r s l) =
               (mkWorld r (s ++ out) (l ++ lines), Some true)).
  { apply siblings_contextFree. rewrite forallb_forall in Hc.
    rewrite Forall_forall in *. intros c Hin. apply IH; auto. }
  destruct Hch as (oc & lc & Hch).
  destruct st; [| |contradiction].
  - destruct (isContainer (Type_ p)) eqn:Hcont.
    + exists (a ++ oc ++ b), (la ++ lc ++ lb). intros parent r s l.
      rewrite walkNode_eq. cbv zeta.
      rewrite (bind_ok _ _ _ _ _ (Ha parent r s l)), Hcont.
      rewrite (bind_ok _ _ _ _ _ (Hch _ r _ _)).
      rewrite (bind_ok _ _ _ _ _ (Hb parent r _ _)).
      unfold ret. rewrite <- !app_assoc.
      destruct st'; [reflexivity | reflexivity | contradiction].
    + exists a, la. intros parent r s l.
      rewrite walkNode_eq. cbv zeta.
      rewrite (bind_ok _ _ _ _ _ (Ha parent r s l)), Hcont. reflexivity.
  - exists a, la. intros parent r s l.
    rewrite walkNode_eq. cbv zeta.
    rewrite (bind_ok _ _ _ _ _ (Ha parent r s l)). reflexivity.
Qed.

(** X7 (context-free subtrees).  A subtree without block quotes, lists,
    items and paragraphs is rendered to the same bytes and log lines
    wherever it hangs and whatever the renderer holds: its walk returns,
    leaves the renderer untouched and appends what a walk of the subtree
    alone by a fresh renderer writes. *)
Theorem context_free_rendering (t : Tree) (parent : option Node)
    (r : Renderer) (s : list byte) (l : list LogLine) :
  contextFree t = true ->
  walkNode parent t (mkWorld r s l) =
    (mkWorld r (s ++ sink (fst (Render t))) (l ++ logged (fst (Render t))),
     Some true).
Proof.
  intros Hcf. destruct (walk_contextFree t Hcf) as (out & lines & H).
  unfold Render, Walk, freshWorld. rewrite (H None NewRenderer [] []).
  cbn [fst sink logged app]. apply H.
Qed.

Lemma context_free_rendering_witness :
  walkNode (Some (itemIn tightList)) emphasizedLink insideOneList =
    (mkWorld (rnd insideOneList) (bytes "*[t](u)*") [], Some true).
Proof.
  apply (context_free_rendering emphasizedLink (Some (itemIn tightList))
           (rnd insideOneList) [] []).
  reflexivity.
Defined.

(** ** Containers that wrap their children *)

Lemma walk_wrapped parent p cs w a b :
  Type_ p <> List ->
  Type_ p <> Item ->
  isContainer (Type_ p) = true ->
  wellFormed (Tr p cs) = true ->
  inInt (nestedListLevel (rnd w)) ->
  (forall w0, RenderNode (mkNode p parent) true w0 =
     (mkWorld (rnd w0) (sink w0 ++ a) (logged w0), Some GoToNext)) ->
  (forall w0, RenderNode (mkNode p parent) false w0 =
     (mkWorld (rnd w0) (sink w0 ++ b) (logged w0), Some GoToNext)) ->
  exists w',
    walkNode parent (Tr p cs) w = (w', Some true) /\
    rnd w' = rnd w /\
    sink w' =
      sink w ++ a
      ++ emitted (walkSiblings (Some (mkNode p parent)) cs) (rnd w) ++ b.
Proof.
  intros HL HI Hcont Hwf Hlvl Ha Hb. set (node := mkNode p parent) in *.
  pose proof (balanced_children p parent cs Hwf) as Hch. fold node in Hch.
  apply wellFormed_children in Hwf. destruct Hwf as [_ Hno].
  specialize (Hno HL).
  rewrite walkNode_eq. cbv zeta. fold node.
  rewrite (bind_ok _ _ _ _ _ (Ha w)), Hcont.
  match goal with |- context [bind (walkSiblings _ _) _ ?w1] =>
    destruct (siblings_balanced node cs Hch w1) as (w2 & E2 & _ & K2);
      [exact Hlvl | left; exact Hno |];
    pose proof (sink_framed _ w1 (framed_walkSiblings (Some node) cs)) as Hs
  end.
  rewrite E2 in Hs. cbn [fst rnd sink] in Hs. specialize (K2 Hno).
  cbn [rnd] in K2.
  rewrite (bind_ok _ _ _ _ _ E2), (bind_ok _ _ _ _ _ (Hb w2)).
  eexists. split; [reflexivity|]. cbn [rnd sink]. split; [exact K2|].
  rewrite Hs, <- !app_assoc. reflexivity.
Qed.

(** X8 (emphasis, strong, strikethrough).  The walk of such a node over
    well-formed children returns, restores the renderer and writes the same
    marker before and after what the children write: one star, two stars or
    two tildes. *)
Theorem emphasis_wraps (parent : option Node) (p : Payload) (cs : list Tree)
    (w : World) (mark : list byte) :
  emphasisMark (Type_ p) = Some mark ->
  wellFormed (Tr p cs) = true ->
  inInt (nestedListLevel (rnd w)) ->
  exists w',
    walkNode parent (Tr p cs) w = (w', Some true) /\
    rnd w' = rnd w /\
    sink w' =
      sink w ++ mark
      ++ emitted (walkSiblings (Some (mkNode p parent)) cs) (rnd w) ++ mark.
Proof.
  intros Hm Hwf Hlvl.
  apply walk_wrapped; try assumption;
    try (intros E; rewrite E in Hm; discriminate);
    try (destruct (Type_ p); try discriminate Hm; reflexivity);
    intros w0; unfold RenderNode, typeOf; cbn [payload];
    destruct (Type_ p); try discriminate Hm; inversion Hm; reflexivity.
Qed.

Lemma emphasis_wraps_witness :
  exists w',
    walkNode None (Tr (plain Strong) [Tr (textP (bytes "t")) []]) freshWorld
    = (w', Some true) /\
    rnd w' = rnd freshWorld /\
    sink w' = sink freshWorld ++ bytes "**" ++ bytes "t" ++ bytes "**".
Proof.
  apply (emphasis_wraps None (plain Strong) [Tr (textP (bytes "t")) []]
           freshWorld (bytes "**")); try reflexivity.
  cbn. unfold inInt, minInt, maxInt. lia.
Defined.

(** X9 (links and images).  The walk of a link over well-formed children
    writes an opening bracket (preceded by an exclamation mark for an
    image), what the children write, then "](", the destination and ")";
    it returns and restores the renderer. *)
Theorem link_wraps (parent : option Node) (p : Payload) (cs : list Tree)
    (w : World) (opening : list byte) :
  linkOpening (Type_ p) = Some opening ->
  wellFormed (Tr p cs) = true ->
  inInt (nestedListLevel (rnd w)) ->
  exists w',
    walkNode parent (Tr p cs) w = (w', Some true) /\
    rnd w' = rnd w /\
    sink w' =
      sink w ++ opening
      ++ emitted (walkSiblings (Some (mkNode p parent)) cs) (rnd w)
      ++ bytes "](" ++ Destination p ++ bytes ")".
Proof.
  intros Hm Hwf Hlvl.
  apply walk_wrapped; try assumption;
    try (intros E; rewrite E in Hm; discriminate);
    try (destruct (Type_ p); try discriminate Hm; reflexivity);
    intros w0; unfold RenderNode, typeOf; cbn [payload];
    destruct (Type_ p); try discriminate Hm; inversion Hm;
    cbv [bind Write ret]; cbn [rnd sink logged]; rewrite <- ?app_assoc;
    reflexivity.
Qed.

Lemma link_wraps_witness :
  exists w',
    walkNode None (Tr (mkPayload Image [] 0 noList (bytes "u") [])
                     [Tr (textP (bytes "t")) []]) freshWorld
    = (w', Some true) /\
    rnd w' = rnd freshWorld /\
    sink w' = sink freshWorld ++ bytes "![" ++ bytes "t"
              ++ bytes "](" ++ bytes "u" ++ bytes ")".
Proof.
  apply (link_wraps None (mkPayload Image [] 0 noList (bytes "u") [])
           [Tr (textP (bytes "t")) []] freshWorld (bytes "![")); try reflexivity.
  cbn. unfold inInt, minInt, maxInt. lia.
Defined.

(** X10 (headings).  The walk of a heading over well-formed children writes
    as many [#] as its level (none when the level is not positive), a
    space, what the children write and two newlines; it returns and
    restores the renderer. *)
Theorem heading_output (parent : option Node) (p : Payload) (cs : list Tree)
    (w : World) :
  Type_ p = Heading ->
  wellFormed (Tr p cs) = true ->
  inInt (nestedListLevel (rnd w)) ->
  exists w',
    walkNode parent (Tr p cs) w = (w', Some true) /\
    rnd w' = rnd w /\
    sink w' =
      sink w ++ repeat "#"%byte (Z.to_nat (Level p)) ++ bytes " "
      ++ emitted (walkSiblings (Some (mkNode p parent)) cs) (rnd w)
      ++ newline ++ newline.
Proof.
  intros E Hwf Hlvl.
  assert (Hhash : forall n, concat (repeat (bytes "#") n) = repeat "#"%byte n).
  { induction n as [|n IH]; cbn [repeat concat]; [reflexivity|].
    rewrite IH. reflexivity. }
  destruct (walk_wrapped parent p cs w
              (repeat "#"%byte (Z.to_nat (Level p)) ++ bytes " ")
              (newline ++ newline)) as (w' & Ew & R & S); try assumption;
    try (rewrite E; discriminate); try (rewrite E; reflexivity).
  - intros w0. unfold RenderNode, typeOf. cbn [payload]. rewrite E.
    cbv [bind Write ret]. cbn [rnd sink logged].
    rewrite Hhash, <- app_assoc. reflexivity.
  - intros w0. unfold RenderNode, typeOf. cbn [payload]. rewrite E.
    reflexivity.
  - exists w'. split; [exact Ew|]. split; [exact R|].
    rewrite S, <- !app_assoc. reflexivity.
Qed.

Lemma heading_output_witness :
  exists w',
    walkNode None (Tr (headingP 3) [Tr (textP (bytes "t")) []]) freshWorld
    = (w', Some true) /\
    rnd w' = rnd freshWorld /\
    sink w' = sink freshWorld ++ bytes "###" ++ bytes " " ++ bytes "t"
              ++ newline ++ newline.
Proof.
  apply (heading_output None (headingP 3) [Tr (textP (bytes "t")) []]
           freshWorld); try reflexivity.
  cbn. unfold inInt, minInt, maxInt. lia.
Defined.

(** ** Subtrees, blocks and whole documents *)

(** X11 (fragments).  Walking a well-formed subtree that hangs under a
    parent and is not itself a list item, from any renderer whose level is
    an [int], returns, is not terminated and leaves the renderer exactly as
    it found it. *)
Theorem subtree_walk_restores (parent : Node) (t : Tree) (w : World) :
  wellFormed t = true ->
  Type_ (rootPayload t) <> Item ->
  inInt (nestedListLevel (rnd w)) ->
  exists w', walkNode (Some parent) t w = (w', Some true) /\ rnd w' = rnd w.
Proof.
  intros Hwf Hi Hlvl.
  destruct (walkNode_balanced t Hwf parent w Hlvl) as (w' & E & _ & K).
  - intros HI. contradiction.
  - exists w'. split; [exact E | exact (K Hi)].
Qed.

Lemma subtree_walk_restores_witness :
  exists w',
    walkNode (Some (itemIn tightList)) nestedExample insideOneList
    = (w', Some true) /\ rnd w' = rnd insideOneList.
Proof.
  apply (subtree_walk_restores (itemIn tightList) nestedExample insideOneList).
  - reflexivity.
  - discriminate.
  - cbn. unfold inInt, minInt, maxInt. lia.
Defined.





(** ** Quotes of any depth *)

Lemma contextFree_wellFormed t :
  contextFree t = true -> wellFormed t = true /\ noItem t.
Proof.
  induction t as [p children IH] using Tree_ind. intros Hcf.
  destruct (contextFree_kind p children Hcf) as (_ & _ & HI & _ & Hc).
  rewrite Forall_forall in IH. rewrite forallb_forall in Hc.
  split; [|exact HI].
  cbn [wellFormed]. apply andb_true_intro.
  split; apply forallb_forall; intros c Hin;
    destruct (IH c Hin (Hc c Hin)) as [Hw Hn]; [|exact Hw].
  unfold noItem in Hn. unfold ofKind at 1.
  destruct NodeType_eq_dec; [contradiction | reflexivity].
Qed.

Lemma wellFormed_quoted k t :
  wellFormed t = true -> noItem t ->
  wellFormed (quoted k t) = true /\ noItem (quoted k t).
Proof.
  intros Hwf Hno. induction k as [|k [IHw IHn]]; [auto|].
  cbn [quoted]. split; [|unfold noItem; cbn; discriminate].
  apply wellFormed_single; assumption.
Qed.

Lemma emitted_contextFree_siblings cs :
  forallb contextFree cs = true ->
  forall parent r,
    emitted (walkSiblings parent cs) r =
    sink (fst (walkSiblings None cs freshWorld)).
Proof.
  intros Hc.
  destruct (siblings_contextFree cs) as (out & lines & H).
  { rewrite forallb_forall in Hc. rewrite Forall_forall. intros c Hin.
    apply walk_contextFree. auto. }
  intros parent r. unfold emitted, freshWorld. rewrite !H. reflexivity.
Qed.

(** X13 (quotes of any depth).  A paragraph of context-free content inside
    [k + 1] block quotes is written as the prefix already in force, [k + 1]
    times "> ", the content and a single newline; the walk returns and
    restores the renderer. *)
Theorem quote_depth (k : nat) (pp : Payload) (cs : list Tree) :
  Type_ pp = Paragraph ->
  forallb contextFree cs = true ->
  forall (parent : option Node) (w : World),
    inInt (nestedListLevel (rnd w)) ->
    exists w',
      walkNode parent (quoted (S k) (Tr pp cs)) w = (w', Some true) /\
      rnd w' = rnd w /\
      sink w' =
        sink w ++ paragraphDecoration (rnd w) ++ quotePrefix (S k)
        ++ sink (fst (walkSiblings None cs freshWorld)) ++ newline.
Proof.
  intros EP Hc.
  assert (Hwf : wellFormed (Tr pp cs) = true).
  { cbn [wellFormed]. apply andb_true_intro. rewrite forallb_forall in Hc.
    split; apply forallb_forall; intros c Hin;
      destruct (contextFree_wellFormed c (Hc c Hin)) as [Hw Hn]; [|exact Hw].
    unfold noItem in Hn. unfold ofKind at 1.
    destruct NodeType_eq_dec; [contradiction | reflexivity]. }
  assert (Hno : noItem (Tr pp cs))
    by (unfold noItem; cbn; rewrite EP; discriminate).
  induction k as [|k IH]; intros parent w Hlvl.
  - cbn [quoted].
    destruct (walk_BlockQuote parent (plain BlockQuote) [Tr pp cs] w eq_refl
                (wellFormed_single _ _ Hno Hwf) Hlvl) as (w' & Ew & R & S).
    exists w'. split; [exact Ew|]. split; [exact R|].
    rewrite S, emitted_single. unfold emitted at 1.
    match goal with |- context [walkNode (Some ?q) _ ?w1] =>
      destruct (walk_Paragraph q pp cs w1 EP Hwf Hlvl) as (w2 & E2 & _ & S2)
    end.
    rewrite E2. cbn [fst]. rewrite S2.
    cbn [rnd sink app paragraphDecoration set_paragraphDecoration].
    rewrite (emitted_contextFree_siblings cs Hc).
    unfold secondNewlineSuppressed, isType, typeOf. cbn [payload plain Type_].
    destruct (NodeType_eq_dec BlockQuote BlockQuote) as [_|N]; [|contradiction].
    cbn [orb]. rewrite app_nil_r, <- !app_assoc. reflexivity.
  - destruct (wellFormed_quoted (S k) _ Hwf Hno) as [Hwq Hnq].
    change (quoted (S (S k)) (Tr pp cs))
      with (Tr (plain BlockQuote) [quoted (S k) (Tr pp cs)]).
    destruct (walk_BlockQuote parent (plain BlockQuote)
                [quoted (S k) (Tr pp cs)] w eq_refl
                (wellFormed_single _ _ Hnq Hwq) Hlvl) as (w' & Ew & R & S).
    exists w'. split; [exact Ew|]. split; [exact R|].
    rewrite S, emitted_single. unfold emitted at 1.
    match goal with |- context [walkNode ?q _ ?w1] =>
      destruct (IH q w1 Hlvl) as (w2 & E2 & _ & S2)
    end.
    rewrite E2. cbn [fst]. rewrite S2.
    cbn [rnd sink app paragraphDecoration set_paragraphDecoration].
    rewrite <- !app_assoc. reflexivity.
Qed.

Lemma quote_depth_witness :
  exists w',
    walkNode (Some documentNode) (quoted 3 (paragraphOf "a")) freshWorld
    = (w', Some true) /\
    rnd w' = rnd freshWorld /\
    sink w' = sink freshWorld ++ [] ++ bytes "> > > " ++ bytes "a" ++ newline.
Proof.
  apply (quote_depth 2 (plain Paragraph) [Tr (textP (bytes "a")) []]
           eq_refl eq_refl (Some documentNode) freshWorld).
  cbn. unfold inInt, minInt, maxInt. lia.
Defined.

(** ** Walks that return, once more *)

Lemma siblings_not_terminated parent ts :
  Forall (fun t => forall w w' b,
            walkNode parent t w = (w', Some b) -> b = true) ts ->
  forall w w' b, walkSiblings parent ts w = (w', Some b) -> b = true.
Proof.
  induction 1 as [|t ts Ht _ IH]; intros w w' b Hrun.
  - rewrite walkSiblings_nil in Hrun. now inversion Hrun.
  - rewrite walkSiblings_cons in Hrun.
    apply bind_done in Hrun. destruct Hrun as (w1 & k & E1 & Hrun).
    rewrite (Ht w w1 k E1) in Hrun. eauto.
Qed.

Lemma walk_not_terminated t :
  forall (parent : option Node) (w w' : World) (b : bool),
    walkNode parent t w = (w', Some b) -> b = true.
Proof.
  induction t as [p children IH] using Tree_ind. intros parent w w' b Hrun.
  set (node := mkNode p parent) in *.
  assert (Hch : Forall (fun t => forall w w' b,
                          walkNode (Some node) t w = (w', Some b) -> b = true)
                       children).
  { rewrite Forall_forall in *. intros c Hc. apply IH. exact Hc. }
  rewrite walkNode_eq in Hrun. cbv zeta in Hrun. fold node in Hrun.
  apply bind_done in Hrun. destruct Hrun as (w1 & st & E1 & Hrun).
  pose proof (visit_done_status node true w w1 st E1) as Hst.
  destruct st; [| |contradiction]; [|now inversion Hrun].
  destruct (isContainer (Type_ p)); [|now inversion Hrun].
  apply bind_done in Hrun. destruct Hrun as (w2 & k & E2 & Hrun).
  rewrite (siblings_not_terminated (Some node) children Hch w1 w2 k E2) in Hrun.
  apply bind_done in Hrun. destruct Hrun as (w3 & st' & E3 & Hrun).
  pose proof (visit_done_status node false w2 w3 st' E3) as Hst'.
  inversion Hrun. destruct st'; [reflexivity | reflexivity | contradiction].
Qed.

(** X14 (the renderer never stops a walk).  Whatever the tree and the
    renderer it starts from, a walk either panics or runs to its end: its
    result is never the one of a walk stopped by [Terminate]. *)
Theorem walk_never_terminated (parent : option Node) (t : Tree) (w : World) :
  snd (walkNode parent t w) <> Some false.
Proof.
  destruct (walkNode parent t w) as [w' [b|]] eqn:E; cbn [snd];
    [|discriminate].
  rewrite (walk_not_terminated t parent w w' b E). discriminate.
Qed.

(** X15 (malformed trees too).  Whatever the tree, well formed or not, and
    whatever the renderer it starts from, a walk that returns has restored
    the quote prefix, the nesting level, the indentation, the number of
    counters and every counter but the innermost. *)
Theorem returning_walk_preserves (parent : option Node) (t : Tree)
    (w w' : World) (b : bool) :
  inInt (nestedListLevel (rnd w)) ->
  walkNode parent t w = (w', Some b) ->
  paragraphDecoration (rnd w') = paragraphDecoration (rnd w) /\
  nestedListLevel (rnd w') = nestedListLevel (rnd w) /\
  nestedListDecoration (rnd w') = nestedListDecoration (rnd w) /\
  removelast (orderedListCounters (rnd w')) =
    removelast (orderedListCounters (rnd w)) /\
  length (orderedListCounters (rnd w')) = length (orderedListCounters (rnd w)).
Proof.
  intros Hlvl Hrun.
  destruct (walkNode_preserved t parent w w' b Hlvl Hrun) as [_ S]. exact S.
Qed.

Lemma returning_walk_preserves_witness :
  paragraphDecoration
    (rnd (fst (walkNode (Some tightList) strayItem insideOneList))) = [] /\
  nestedListLevel
    (rnd (fst (walkNode (Some tightList) strayItem insideOneList))) = 1 /\
  nestedListDecoration
    (rnd (fst (walkNode (Some tightList) strayItem insideOneList))) = [] /\
  removelast (orderedListCounters
    (rnd (fst (walkNode (Some tightList) strayItem insideOneList)))) = [] /\
  length (orderedListCounters
    (rnd (fst (walkNode (Some tightList) strayItem insideOneList)))) = 1%nat.
Proof.
  apply (returning_walk_preserves (Some tightList) strayItem insideOneList
           (fst (walkNode (Some tightList) strayItem insideOneList)) true).
  - cbn. unfold inInt, minInt, maxInt. lia.
  - vm_compute. reflexivity.
Defined.
